(** * validator-ejector: the messages processor

    A shallow embedding of [src/services/messages-processor/service.ts]
    ([load], [decryptMessage], [verify], [exit], [runJob]) and the
    properties of its control flow: which messages are kept, which metric
    is incremented on which branch, which remote calls are made, and which
    failures escape.

    The service is a closure over injected collaborators (logger, config,
    consensus and execution clients, metrics, the two blob stores).  The
    remote collaborators are modelled as transitions of an abstract
    [World]; the two sinks (logger, metrics) and the sequence of remote
    calls are recorded in the processor's own state. *)

From Stdlib Require Import Ascii String List ZArith NArith Bool Lia PrimFloat.
Import ListNotations.
Local Open Scope string_scope.
Local Open Scope list_scope.

Set Implicit Arguments.

(* ================================================================== *)
(** ** Data model *)

Definition Bytes := list Byte.byte.

(** A JavaScript call either returns a value or throws. *)
Inductive result (A : Type) : Type :=
| Ok (a : A)
| Throw (e : string).
Arguments Ok {A} a.
Arguments Throw {A} e.

(** [type ExitMessage] *)
Record ExitData := { epoch : string; validator_index : string }.
Record ExitMessage := { message : ExitData; signature : string }.

(** [type EthDoExitMessage] *)
Record EthDoExitMessage := { exit_ : ExitMessage; fork_version : string }.

(** The value that [consensusApi.validatorInfo] resolves to; [verify] reads
    [pubKey] and [isExiting], [exit] reads [isExiting] and [index]. *)
Record ValidatorInfo := { index : string; pubKey : string; isExiting : bool }.

(** The fields of the genesis and state responses that [verify] reads. *)
Record GenesisInfo := { genesis_validators_root : string }.
Record ForkState := { previous_version : string; current_version : string }.

(** One entry of [executionApi.logs].  Block numbers are JavaScript
    numbers: [float] is the type of binary64 floats. *)
Record EjectEvent := { validatorPubkey : string }.

(** [parsedExit] of [verifyFork]; [None] stands for [NaN]. *)
Record VoluntaryExit := { ve_epoch : option Z; ve_validatorIndex : option Z }.

(** Values produced by [JSON.parse]. *)
#[local] Unset Elimination Schemes.
Inductive json : Type :=
| JNull
| JBool (b : bool)
| JNum (literal : string)
| JStr (s : string)
| JArr (items : list json)
| JObj (fields : list (string * json)).
#[local] Set Elimination Schemes.

(** The JavaScript [key in value] test, for a [key] that no prototype
    defines (the service tests ['crypto'] only on parsed JSON): own-key
    lookup on an object, [false] on an array, and a [TypeError] on [null],
    a boolean, a number or a string. *)
Definition js_in (key : string) (value : json) : result bool :=
  match value with
  | JObj fields => Ok (existsb (fun kv => String.eqb (fst kv) key) fields)
  | JArr _ => Ok false
  | _ => Throw "TypeError: Cannot use 'in' operator"
  end.

(** *** The two metric counters *)

(** [metrics.exitMessages] is labelled by [valid], [metrics.exitActions] by
    [result]. *)
Record Metrics := {
  exitMessages_valid_true : nat;
  exitMessages_valid_false : nat;
  exitActions_success : nat;
  exitActions_error : nat
}.

Inductive ActionResult := success | error.

Definition exitMessages_inc (valid : bool) (m : Metrics) : Metrics :=
  if valid
  then {| exitMessages_valid_true := S (exitMessages_valid_true m);
          exitMessages_valid_false := exitMessages_valid_false m;
          exitActions_success := exitActions_success m;
          exitActions_error := exitActions_error m |}
  else {| exitMessages_valid_true := exitMessages_valid_true m;
          exitMessages_valid_false := S (exitMessages_valid_false m);
          exitActions_success := exitActions_success m;
          exitActions_error := exitActions_error m |}.

Definition exitActions_inc (r : ActionResult) (m : Metrics) : Metrics :=
  match r with
  | success =>
      {| exitMessages_valid_true := exitMessages_valid_true m;
         exitMessages_valid_false := exitMessages_valid_false m;
         exitActions_success := S (exitActions_success m);
         exitActions_error := exitActions_error m |}
  | error =>
      {| exitMessages_valid_true := exitMessages_valid_true m;
         exitMessages_valid_false := exitMessages_valid_false m;
         exitActions_success := exitActions_success m;
         exitActions_error := S (exitActions_error m) |}
  end.

(** The number of increments a metrics value has received in all. *)
Definition increments (m : Metrics) : nat :=
  exitMessages_valid_true m + exitMessages_valid_false m
  + exitActions_success m + exitActions_error m.

Definition no_metrics : Metrics :=
  {| exitMessages_valid_true := 0; exitMessages_valid_false := 0;
     exitActions_success := 0; exitActions_error := 0 |}.

(** *** Observable effects *)

Inductive Level := debug | info | warn | error_level.

(** What the processor does to the outside, in order. *)
Inductive Effect :=
| s3_read (uri : string)
| gs_read (uri : string)
| consensus_genesis
| consensus_state
| consensus_validatorInfo (id : string)
| consensus_exitRequest (m : ExitMessage)
| execution_resolveExitBusAddress
| execution_resolveConsensusAddress
| execution_latestBlockNumber
| execution_logs (fromBlock toBlock : float)
| logger (lvl : Level) (text : string).

(* ================================================================== *)
(** ** Injected collaborators *)

Section Collaborators.
Variable World : Type.

(** A remote call: it may change the world, and returns or throws. *)
Definition Remote (A : Type) := World -> result A * World.

Record ConfigService := {
  MESSAGES_LOCATIONS : list string;
  MESSAGES_PASSWORD : option string;
  OPERATOR_ID : string;
  STAKING_MODULE_ID : string
}.

Record ConsensusApiService := {
  genesis : Remote GenesisInfo;
  state : Remote ForkState;
  validatorInfo : string -> Remote ValidatorInfo;
  exitRequest : ExitMessage -> Remote unit
}.

Record ExecutionApiService := {
  resolveExitBusAddress : Remote unit;
  resolveConsensusAddress : Remote unit;
  latestBlockNumber : Remote float;
  logs : float -> float -> Remote (list EjectEvent)
}.

Record StoreService := { read : string -> Remote string }.

(** The imported functions, at their declared signatures.  The two DTO
    checks of [./dto.js], [JSON.parse] and the keystore [decrypt] throw on
    bad input, and the service catches what they throw.  The helpers that
    [verify] calls outside any [try] ([fromHex], [toHexString], [parseInt],
    [computeDomain], [computeSigningRoot], [bls.verify]) are taken as the
    total functions their types declare: a malformed key or signature
    makes [bls.verify] answer [false]. *)
Record Imports := {
  Keystore : Type;
  JSON_parse : string -> result json;
  encryptedMessageDTO : json -> result Keystore;
  exitOrEthDoExitDTO : json -> result (ExitMessage + EthDoExitMessage);
  decrypt : Keystore -> string -> result Bytes;
  TextDecoder_decode : Bytes -> string;
  fromHex : string -> Bytes;
  toHexString : Bytes -> string;
  parseInt : string -> Z -> option Z;
  DOMAIN_VOLUNTARY_EXIT : Bytes;
  computeDomain : Bytes -> Bytes -> Bytes -> Bytes;
  computeSigningRoot : VoluntaryExit -> Bytes -> Bytes;
  bls_verify : Bytes -> Bytes -> Bytes -> bool
}.

(** The argument of [makeMessagesProcessor]; [logger] and [metrics] are
    the two sinks kept in the processor state below. *)
Record Deps := {
  config : ConfigService;
  consensusApi : ConsensusApiService;
  executionApi : ExecutionApiService;
  s3Service : StoreService;
  gsService : StoreService;
  imports : Imports
}.

(** *** Processor state and the monad of async functions *)

Record St := {
  world : World;
  metrics : Metrics;
  trace : list Effect
}.

Definition M (A : Type) := St -> result A * St.

Definition ret {A} (a : A) : M A := fun s => (Ok a, s).

Definition throw {A} (e : string) : M A := fun s => (Throw e, s).

Definition bind {A B} (m : M A) (k : A -> M B) : M B :=
  fun s =>
    match m s with
    | (Ok a, s') => k a s'
    | (Throw e, s') => (Throw e, s')
    end.

(** [try { body } catch (e) { handler }] *)
Definition try_catch {A} (body : M A) (handler : string -> M A) : M A :=
  fun s =>
    match body s with
    | (Ok a, s') => (Ok a, s')
    | (Throw e, s') => handler e s'
    end.

(** [try { x = body } catch (e) { ... }] seen from the code after it:
    the outcome of [body] as a value. *)
Definition attempt {A} (body : M A) : M (result A) :=
  fun s => let (r, s') := body s in (Ok r, s').

(** A synchronous call that may throw. *)
Definition lift {A} (r : result A) : M A := fun s => (r, s).

Definition emit (e : Effect) : M unit :=
  fun s => (Ok tt, {| world := world s; metrics := metrics s;
                      trace := trace s ++ [e] |}).

(** [await remote(...)]: the call is recorded, then the world answers. *)
Definition await {A} (e : Effect) (call : Remote A) : M A :=
  fun s =>
    let (r, w) := call (world s) in
    (r, {| world := w; metrics := metrics s; trace := trace s ++ [e] |}).

Definition metrics_exitMessages_inc (valid : bool) : M unit :=
  fun s => (Ok tt, {| world := world s;
                      metrics := exitMessages_inc valid (metrics s);
                      trace := trace s |}).

Definition metrics_exitActions_inc (r : ActionResult) : M unit :=
  fun s => (Ok tt, {| world := world s;
                      metrics := exitActions_inc r (metrics s);
                      trace := trace s |}).

End Collaborators.

Arguments ret {World A} a.
Arguments throw {World A} e.
Arguments lift {World A} r.
Arguments emit {World} e.
Arguments metrics_exitMessages_inc {World} valid.
Arguments metrics_exitActions_inc {World} r.

Declare Scope js_scope.
Delimit Scope js_scope with js.
Notation "x <- m ;; k" := (bind m (fun x => k))
  (at level 61, m at next level, right associativity) : js_scope.
Notation "m ;; k" := (bind m (fun _ => k))
  (at level 61, right associativity) : js_scope.
Local Open Scope js_scope.

(* ================================================================== *)
(** ** The service: [makeMessagesProcessor] *)

Section MessagesProcessor.
Variable World : Type.
Variable deps : Deps World.

Let lib := imports deps.

(** [const readFile] *)
Definition readFile (uri : string) : M World string :=
  if String.prefix "s3://" uri
  then await (s3_read uri) (read (s3Service deps) uri)
  else await (gs_read uri) (read (gsService deps) uri).

(** [!config.MESSAGES_PASSWORD]: the option is unset or the empty
    string. *)
Definition password_missing (p : option string) : bool :=
  match p with
  | None => true
  | Some pw => String.eqb pw ""
  end.

(** [const decryptMessage] *)
Definition decryptMessage (input : json) : M World json :=
  match MESSAGES_PASSWORD (config deps) with
  | Some pw =>
      if String.eqb pw "" then throw "Password was not supplied"
      else
        checked <- lift (encryptedMessageDTO lib input) ;;
        content <- lift (decrypt lib checked pw) ;;
        let stringed := TextDecoder_decode lib content in
        try_catch (lift (JSON_parse lib stringed))
                  (fun _ => throw "Unparseable JSON after decryption")
  | None => throw "Password was not supplied"
  end.

(** [validated] of [load] once checked: the bare or the wrapped form. *)
Definition unwrap (validated : ExitMessage + EthDoExitMessage) : ExitMessage :=
  match validated with
  | inl bare => bare
  | inr wrapped => exit_ wrapped
  end.

(** The last stage of the body of [load]'s loop: schema validation,
    unwrapping and [messages.push]. *)
Definition load_validate (file : string) (j : json)
           (messages : list ExitMessage) : M World (list ExitMessage) :=
  match exitOrEthDoExitDTO lib j with
  | Throw _ =>
      emit (logger error_level (file ++ " failed validation:")) ;;
      metrics_exitMessages_inc false ;;
      ret messages
  | Ok validated =>
      ret (messages ++ [unwrap validated])
  end.

(** The body of [load]'s loop for one location; taking the [continue]
    exits returns [messages] as it was. *)
Definition load_file (file : string) (messages : list ExitMessage)
  : M World (list ExitMessage) :=
  read <- attempt (readFile file) ;;
  match read with
  | Throw _ =>
      emit (logger warn ("Unparseable read file " ++ file)) ;;
      ret messages
  | Ok read =>
      match JSON_parse lib read with
      | Throw _ =>
          emit (logger warn ("Unparseable JSON in file " ++ file)) ;;
          metrics_exitMessages_inc false ;;
          ret messages
      | Ok j =>
          has_crypto <- lift (js_in "crypto" j) ;;
          if has_crypto : bool then
            decrypted <- attempt (decryptMessage j) ;;
            match decrypted with
            | Throw _ =>
                emit (logger warn
                        ("Unable to decrypt encrypted file: " ++ file)) ;;
                metrics_exitMessages_inc false ;;
                ret messages
            | Ok j' => load_validate file j' messages
            end
          else load_validate file j messages
      end
  end.

Fixpoint load_loop (files : list string) (messages : list ExitMessage)
  : M World (list ExitMessage) :=
  match files with
  | [] => ret messages
  | file :: rest =>
      messages' <- load_file file messages ;;
      load_loop rest messages'
  end.

(** [const load] *)
Definition load : M World (list ExitMessage) :=
  load_loop (MESSAGES_LOCATIONS (config deps)) [].

(** [const verifyFork], a closure over the message and the batch data. *)
Definition verifyFork (pubKey signature GENESIS_VALIDATORS_ROOT : Bytes)
           (epoch validatorIndex : string) (fork : Bytes) : M World bool :=
  let domain :=
    computeDomain lib (DOMAIN_VOLUNTARY_EXIT lib) fork GENESIS_VALIDATORS_ROOT in
  let parsedExit :=
    {| ve_epoch := parseInt lib epoch 10;
       ve_validatorIndex := parseInt lib validatorIndex 10 |} in
  let signingRoot := computeSigningRoot lib parsedExit domain in
  let isValid := bls_verify lib pubKey signingRoot signature in
  emit (logger debug
          ("Singature " ++ (if isValid then "valid" else "invalid")
           ++ " for validator " ++ validatorIndex
           ++ " for fork " ++ toHexString lib fork)) ;;
  ret isValid.

(** The body of [verify]'s loop for one message. *)
Definition verify_message (genesis : GenesisInfo) (state : ForkState)
           (m : ExitMessage) (validMessages : list ExitMessage)
  : M World (list ExitMessage) :=
  let rawSignature := signature m in
  let validatorIndex := validator_index (message m) in
  let epoch := epoch (message m) in
  fetched <- attempt (await (consensus_validatorInfo validatorIndex)
                            (validatorInfo (consensusApi deps) validatorIndex)) ;;
  match fetched with
  | Throw _ =>
      emit (logger error_level
              ("Failed to get validator info for index " ++ validatorIndex)) ;;
      metrics_exitMessages_inc false ;;
      ret validMessages
  | Ok validatorInfo =>
      if isExiting validatorInfo then
        emit (logger debug
                (pubKey validatorInfo ++ " exiting(ed), skipping validation")) ;;
        metrics_exitMessages_inc false ;;
        ret validMessages
      else
        let pubKey := fromHex lib (pubKey validatorInfo) in
        let signature := fromHex lib rawSignature in
        let GENESIS_VALIDATORS_ROOT :=
          fromHex lib (genesis_validators_root genesis) in
        let CURRENT_FORK := fromHex lib (current_version state) in
        let PREVIOUS_FORK := fromHex lib (previous_version state) in
        let verifyFork :=
          verifyFork pubKey signature GENESIS_VALIDATORS_ROOT
                     epoch validatorIndex in
        isValid <- verifyFork CURRENT_FORK ;;
        isValid <- (if negb isValid then verifyFork PREVIOUS_FORK
                    else ret isValid) ;;
        if negb isValid then
          emit (logger error_level
                  ("Invalid signature for validator " ++ validatorIndex)) ;;
          metrics_exitMessages_inc false ;;
          ret validMessages
        else
          let validMessages := validMessages ++ [m] in
          metrics_exitMessages_inc true ;;
          ret validMessages
  end.

Fixpoint verify_loop (genesis : GenesisInfo) (state : ForkState)
         (messages validMessages : list ExitMessage)
  : M World (list ExitMessage) :=
  match messages with
  | [] => ret validMessages
  | m :: rest =>
      validMessages' <- verify_message genesis state m validMessages ;;
      verify_loop genesis state rest validMessages'
  end.

(** [const verify] *)
Definition verify (messages : list ExitMessage) : M World (list ExitMessage) :=
  genesis <- await consensus_genesis (genesis (consensusApi deps)) ;;
  state <- await consensus_state (state (consensusApi deps)) ;;
  verify_loop genesis state messages [].

(** [messages.find((msg) => msg.message.validator_index === validatorIndex)] *)
Definition find_message (messages : list ExitMessage) (validatorIndex : string)
  : option ExitMessage :=
  find (fun msg => String.eqb (validator_index (message msg)) validatorIndex)
       messages.

(** [const exit] *)
Definition exit (messages : list ExitMessage) (pubKey : string) : M World unit :=
  first <- await (consensus_validatorInfo pubKey)
                 (validatorInfo (consensusApi deps) pubKey) ;;
  if isExiting first then
    emit (logger debug
            ("Exit was initiated, but " ++ pubKey
             ++ " is already exiting(ed), skipping")) ;;
    ret tt
  else
    second <- await (consensus_validatorInfo pubKey)
                    (validatorInfo (consensusApi deps) pubKey) ;;
    let validatorIndex := index second in
    match find_message messages validatorIndex with
    | None =>
        emit (logger error_level
                "Validator needs to be exited but required message was not found / accessible!") ;;
        metrics_exitActions_inc error
    | Some message =>
        try_catch
          (await (consensus_exitRequest message)
                 (exitRequest (consensusApi deps) message) ;;
           emit (logger info
                   "Voluntary exit message sent successfully to Consensus Layer") ;;
           metrics_exitActions_inc success)
          (fun _ =>
             emit (logger error_level "Failed to send out exit message") ;;
             metrics_exitActions_inc error)
    end.

(** The loop of [runJob] over the fetched events. *)
Fixpoint runJob_loop (messages : list ExitMessage)
         (eventsForEject : list EjectEvent) : M World unit :=
  match eventsForEject with
  | [] => ret tt
  | event :: rest =>
      emit (logger info "Handling exit") ;;
      try_catch
        (exit messages (validatorPubkey event))
        (fun _ =>
           emit (logger error_level
                   ("Unable to process exit for " ++ validatorPubkey event))) ;;
      runJob_loop messages rest
  end.

(** [const runJob].  [eventsNumber] and the block numbers are JavaScript
    numbers, that is binary64 floats, and [toBlock - eventsNumber] is their
    subtraction. *)
Definition runJob (eventsNumber : float) (messages : list ExitMessage)
  : M World unit :=
  emit (logger info "Job started") ;;
  await execution_resolveExitBusAddress
        (resolveExitBusAddress (executionApi deps)) ;;
  await execution_resolveConsensusAddress
        (resolveConsensusAddress (executionApi deps)) ;;
  toBlock <- await execution_latestBlockNumber
                   (latestBlockNumber (executionApi deps)) ;;
  let fromBlock := (toBlock - eventsNumber)%float in
  emit (logger info "Fetched the latest block from EL") ;;
  emit (logger info "Fetching request events from the Exit Bus") ;;
  eventsForEject <- await (execution_logs fromBlock toBlock)
                          (logs (executionApi deps) fromBlock toBlock) ;;
  emit (logger info "Handling ejection requests") ;;
  runJob_loop messages eventsForEject ;;
  emit (logger info "Job finished").

End MessagesProcessor.

(* ================================================================== *)
(** ** Vocabulary of the statements *)

(** The block ranges of the [executionApi.logs] calls of a trace. *)
Definition logs_calls (t : list Effect) : list (float * float) :=
  flat_map (fun e => match e with
                     | execution_logs a b => [(a, b)]
                     | _ => []
                     end) t.

(** The messages submitted through [consensusApi.exitRequest]. *)
Definition exitRequest_calls (t : list Effect) : list ExitMessage :=
  flat_map (fun e => match e with
                     | consensus_exitRequest m => [m]
                     | _ => []
                     end) t.

(** The identifiers [consensusApi.validatorInfo] was asked for. *)
Definition validatorInfo_calls (t : list Effect) : list string :=
  flat_map (fun e => match e with
                     | consensus_validatorInfo id => [id]
                     | _ => []
                     end) t.

(** [out] keeps some elements of [l], in the order of [l]. *)
Inductive Subsequence {A : Type} : list A -> list A -> Prop :=
| Subsequence_nil : Subsequence [] []
| Subsequence_skip x out l : Subsequence out l -> Subsequence out (x :: l)
| Subsequence_keep x out l : Subsequence out l -> Subsequence (x :: out) (x :: l).

Section Vocabulary.
Variable World : Type.
Variable deps : Deps World.

Let lib := imports deps.

(** The state after [s] once the world moved to [w], the metrics to [mt]
    and the effects [es] happened. *)
Definition after (s : St World) (w : World) (mt : Metrics) (es : list Effect)
  : St World :=
  {| world := w; metrics := mt; trace := trace s ++ es |}.

(** The state in which [load] leaves a location it skips and counts,
    [line] being what it logs. *)
Definition skipped (s : St World) (line : Effect) : St World :=
  after s (world s) (exitMessages_inc false (metrics s)) [line].

(** The verdict of [bls.verify] for message [m] of the validator
    described by [info], under the fork version [fork_version]. *)
Definition signed_under (genesis : GenesisInfo) (info : ValidatorInfo)
           (m : ExitMessage) (fork_version : string) : bool :=
  bls_verify lib
    (fromHex lib (pubKey info))
    (computeSigningRoot lib
       {| ve_epoch := parseInt lib (epoch (message m)) 10;
          ve_validatorIndex := parseInt lib (validator_index (message m)) 10 |}
       (computeDomain lib (DOMAIN_VOLUNTARY_EXIT lib)
          (fromHex lib fork_version)
          (fromHex lib (genesis_validators_root genesis))))
    (fromHex lib (signature m)).

(** The debug line one evaluation of [verifyFork] leaves in the trace. *)
Definition verifyFork_logged (isValid : bool) (m : ExitMessage)
           (fork_version : string) : Effect :=
  logger debug
    ("Singature " ++ (if isValid then "valid" else "invalid")
     ++ " for validator " ++ validator_index (message m)
     ++ " for fork " ++ toHexString lib (fromHex lib fork_version)).

(** The fork checks of one message: the current fork first, the previous
    fork only after the current one failed. *)
Definition fork_checks (genesis : GenesisInfo) (state : ForkState)
           (info : ValidatorInfo) (m : ExitMessage) : list Effect :=
  if signed_under genesis info m (current_version state)
  then [verifyFork_logged true m (current_version state)]
  else [verifyFork_logged false m (current_version state);
        verifyFork_logged (signed_under genesis info m (previous_version state))
                          m (previous_version state)].

End Vocabulary.

(* ================================================================== *)
(** ** A concrete deployment to run the service on

    Test doubles for the collaborators: a consensus node with two
    validators that remembers which exits it accepted, an execution node
    whose head is block 1000, blob stores backed by a table, and stand-ins
    for the imported functions. *)

Module Scenario.

(** The indices of the validators whose exit the node has accepted. *)
Definition World := list string.

(** (index, pubkey) of the validators the node knows. *)
Definition registry : list (string * string) :=
  [("1", "0xaa"); ("2", "0xbb")].

Definition lookup {A} (key : string) (table : list (string * A)) : option A :=
  option_map snd (find (fun kv => String.eqb (fst kv) key) table).

(** *** Hex strings *)

Definition hex_value (c : ascii) : option N :=
  let n := N_of_ascii c in
  if (48 <=? n)%N && (n <=? 57)%N then Some (n - 48)%N
  else if (97 <=? n)%N && (n <=? 102)%N then Some (n - 87)%N
  else if (65 <=? n)%N && (n <=? 70)%N then Some (n - 55)%N
  else None.

Fixpoint hex_pairs (s : string) : Bytes :=
  match s with
  | String a (String b rest) =>
      match hex_value a, hex_value b with
      | Some x, Some y =>
          match Byte.of_N (16 * x + y) with
          | Some byte => byte :: hex_pairs rest
          | None => []
          end
      | _, _ => []
      end
  | _ => []
  end.

Definition fromHex (hex : string) : Bytes :=
  hex_pairs (if String.prefix "0x" hex
             then substring 2 (String.length hex - 2) hex
             else hex).

Definition hex_char (n : N) : ascii :=
  ascii_of_N (if (n <? 10)%N then 48 + n else 87 + n)%N.

Definition toHexString (bytes : Bytes) : string :=
  ("0x" ++ String.concat ""
     (map (fun b => let n := Byte.to_N b in
                    String (hex_char (n / 16)) (String (hex_char (n mod 16)) ""))
          bytes))%string.

(** *** Decimal strings *)

Fixpoint digits (s : string) (acc : option Z) : option Z :=
  match s with
  | String c rest =>
      let n := N_of_ascii c in
      if (48 <=? n)%N && (n <=? 57)%N
      then digits rest (Some (10 * match acc with Some a => a | None => 0 end
                              + Z.of_N (n - 48))%Z)
      else acc
  | EmptyString => acc
  end.

Definition parseInt (s : string) (radix : Z) : option Z := digits s None.

(** *** A stand-in signature scheme: a signature is the public key
    followed by the signing root. *)

Definition computeDomain (domainType fork root : Bytes) : Bytes :=
  domainType ++ fork ++ root.

Definition computeSigningRoot (exit : VoluntaryExit) (domain : Bytes) : Bytes :=
  domain.

Fixpoint bytes_eqb (a b : Bytes) : bool :=
  match a, b with
  | [], [] => true
  | x :: a', y :: b' => Byte.eqb x y && bytes_eqb a' b'
  | _, _ => false
  end.

Definition bls_verify (publicKey signingRoot signature : Bytes) : bool :=
  bytes_eqb signature (publicKey ++ signingRoot).

(** *** The exit-message schema *)

Definition str (field : option json) (message : string) : result string :=
  match field with
  | Some (JStr s) => Ok s
  | _ => Throw message
  end.

(** Modelled from the spec: the exit-message check of [./dto.js], which is
    not among the sources.  An ExitMessage is
    [{ message: { epoch: string, validator_index: string }, signature: string }]. *)
Definition exitMessageDTO (j : json) : result ExitMessage :=
  match j with
  | JObj fields =>
      match lookup "message" fields with
      | Some (JObj inner) =>
          match str (lookup "epoch" inner) "Invalid epoch",
                str (lookup "validator_index" inner) "Invalid validator_index",
                str (lookup "signature" fields) "Invalid signature" with
          | Ok e, Ok i, Ok sg =>
              Ok {| message := {| epoch := e; validator_index := i |};
                    signature := sg |}
          | Throw err, _, _ => Throw err
          | _, Throw err, _ => Throw err
          | _, _, Throw err => Throw err
          end
      | _ => Throw "Invalid message"
      end
  | _ => Throw "Invalid exit message"
  end.

(** Modelled from the spec: the check of [./dto.js] that accepts either
    the bare form or the wrapped form
    [{ exit: ExitMessage, fork_version: string }]. *)
Definition exitOrEthDoExitDTO (j : json)
  : result (ExitMessage + EthDoExitMessage) :=
  match j with
  | JObj fields =>
      match lookup "exit" fields with
      | Some inner =>
          match exitMessageDTO inner,
                str (lookup "fork_version" fields) "Invalid fork_version" with
          | Ok m, Ok v => Ok (inr {| exit_ := m; fork_version := v |})
          | Throw err, _ => Throw err
          | _, Throw err => Throw err
          end
      | None =>
          match exitMessageDTO j with
          | Ok m => Ok (inl m)
          | Throw err => Throw err
          end
      end
  | _ => Throw "Invalid exit message"
  end.

(** *** A stand-in keystore: the envelope carries its plaintext in
    ["crypto"], released for the password ["secret"]. *)

Definition encryptedMessageDTO (j : json) : result string :=
  match j with
  | JObj fields => str (lookup "crypto" fields) "Invalid crypto"
  | _ => Throw "Invalid encrypted message"
  end.

Definition decrypt (keystore password : string) : result Bytes :=
  if String.eqb password "secret"
  then Ok (list_byte_of_string keystore)
  else Throw "Invalid password".

(** *** The collaborators *)

Definition validatorInfo (id : string) : Remote World ValidatorInfo :=
  fun w =>
    match find (fun v => String.eqb (fst v) id || String.eqb (snd v) id)
               registry with
    | Some v =>
        (Ok {| index := fst v; pubKey := snd v;
               isExiting := existsb (String.eqb (fst v)) w |}, w)
    | None => (Throw "404", w)
    end.

Definition consensusApi : ConsensusApiService World :=
  Build_ConsensusApiService
    (fun w => (Ok {| genesis_validators_root := "0x01" |}, w))
    (fun w => (Ok {| previous_version := "0x03"; current_version := "0x02" |}, w))
    validatorInfo
    (fun m w => (Ok tt, validator_index (message m) :: w)).

Definition executionApi (events : list EjectEvent)
  : ExecutionApiService World :=
  {| resolveExitBusAddress := fun w => (Ok tt, w);
     resolveConsensusAddress := fun w => (Ok tt, w);
     latestBlockNumber := fun w => (Ok 1000%float, w);
     logs := fun _ _ w => (Ok events, w) |}.

(** A blob store over a table from location to content. *)
Definition store (files : list (string * string)) : StoreService World :=
  {| read := fun uri w =>
               match lookup uri files with
               | Some content => (Ok content, w)
               | None => (Throw "NoSuchKey", w)
               end |}.

(** [JSON.parse] over a table from text to the value it denotes. *)
Definition JSON_parse (documents : list (string * json)) (text : string)
  : result json :=
  match lookup text documents with
  | Some j => Ok j
  | None => Throw "SyntaxError"
  end.

Definition imports (documents : list (string * json)) : Imports :=
  Build_Imports
    (JSON_parse documents) encryptedMessageDTO exitOrEthDoExitDTO decrypt
    string_of_list_byte fromHex toHexString parseInt (fromHex "0x04000000")
    computeDomain computeSigningRoot bls_verify.

Definition deps (locations : list string) (password : option string)
           (files : list (string * string)) (documents : list (string * json))
           (events : list EjectEvent) : Deps World :=
  Build_Deps
    {| MESSAGES_LOCATIONS := locations;
       MESSAGES_PASSWORD := password;
       OPERATOR_ID := "7";
       STAKING_MODULE_ID := "1" |}
    consensusApi (executionApi events) (store files) (store files)
    (imports documents).

(** A deployment with no files and no events. *)
Definition node : Deps World := deps [] None [] [] [].

(** The processor before it did anything, the node having accepted the
    exits of [exited]. *)
Definition start (exited : World) : St World :=
  {| world := exited; metrics := no_metrics; trace := [] |}.

Definition exit_message (validator signature : string) : ExitMessage :=
  {| message := {| epoch := "100"; validator_index := validator |};
     signature := signature |}.

(** Validator 1's exit signed under the current fork, under the previous
    fork, and not signed properly. *)
Definition signed_current : ExitMessage := exit_message "1" "0xaa040000000201".
Definition signed_previous : ExitMessage := exit_message "1" "0xaa040000000301".
Definition signed_badly : ExitMessage := exit_message "1" "0xaa04".

(** *** Stored files *)

(** A well-formed exit message, the same without its [signature], and
    the same carrying a [crypto] key. *)
Definition good_document : json :=
  JObj [("message", JObj [("epoch", JStr "100"); ("validator_index", JStr "1")]);
        ("signature", JStr "0xaa040000000201")].

Definition unsigned_document : json :=
  JObj [("message", JObj [("epoch", JStr "100"); ("validator_index", JStr "1")])].

Definition sealed_document : json :=
  JObj [("crypto", JStr "good");
        ("message", JObj [("epoch", JStr "100"); ("validator_index", JStr "1")]);
        ("signature", JStr "0xaa040000000201")].

(** What [JSON.parse] makes of the texts stored below; any other text is
    a syntax error. *)
Definition documents : list (string * json) :=
  [("good", good_document); ("unsigned", unsigned_document);
   ("sealed", sealed_document); ("null", JNull)].

Definition files : list (string * string) :=
  [("s3://bucket/broken.json", "{oops");
   ("gs://bucket/good.json", "good");
   ("s3://bucket/unsigned.json", "unsigned");
   ("s3://bucket/sealed.json", "sealed");
   ("s3://bucket/null.json", "null")].

(** Three locations: invalid JSON, a valid message, a message without
    [signature]. *)
Definition three_locations : Deps World :=
  deps ["s3://bucket/broken.json"; "gs://bucket/good.json";
        "s3://bucket/unsigned.json"] None files documents [].

(** A location that cannot be read. *)
Definition missing_location : Deps World :=
  deps ["s3://bucket/absent.json"] None files documents [].

(** A file with a [crypto] key, no password being configured. *)
Definition sealed_location : Deps World :=
  deps ["s3://bucket/sealed.json"] None files documents [].

(** A file whose content is the JSON text [null], followed by a valid
    message. *)
Definition null_location : Deps World :=
  deps ["s3://bucket/null.json"; "gs://bucket/good.json"] None
       files documents [].

(** An exit message for a validator the node does not know. *)
Definition unknown_validator : ExitMessage := exit_message "9" "0xaa04".

(** A file with a [crypto] key, the password being configured. *)
Definition sealed_with_password : Deps World :=
  deps ["s3://bucket/sealed.json"] (Some "secret") files documents [].

(** The same node, refusing every exit request. *)
Definition refusing_node : Deps World :=
  Build_Deps
    {| MESSAGES_LOCATIONS := []; MESSAGES_PASSWORD := None;
       OPERATOR_ID := "7"; STAKING_MODULE_ID := "1" |}
    (Build_ConsensusApiService
       (fun w => (Ok {| genesis_validators_root := "0x01" |}, w))
       (fun w => (Ok {| previous_version := "0x03"; current_version := "0x02" |}, w))
       validatorInfo
       (fun _ w => (Throw "400", w)))
    (executionApi []) (store []) (store []) (imports []).

(** Events for an unknown pubkey, then twice for validator 1. *)
Definition three_events : list EjectEvent :=
  [{| validatorPubkey := "0xcc" |}; {| validatorPubkey := "0xaa" |};
   {| validatorPubkey := "0xaa" |}].

(** One stored message, and the three events. *)
Definition pipeline : Deps World :=
  deps ["gs://bucket/good.json"] None files documents three_events.

(** An execution node whose log has one event, for validator 1, and
    returns it only to a query for the blocks 900 to 1000. *)
Definition windowed_executionApi : ExecutionApiService World :=
  {| resolveExitBusAddress := fun w => (Ok tt, w);
     resolveConsensusAddress := fun w => (Ok tt, w);
     latestBlockNumber := fun w => (Ok 1000%float, w);
     logs := fun fromBlock toBlock w =>
               if PrimFloat.eqb fromBlock 900 && PrimFloat.eqb toBlock 1000
               then (Ok [{| validatorPubkey := "0xaa" |}], w)
               else (Ok [], w) |}.

Definition windowed : Deps World :=
  Build_Deps
    {| MESSAGES_LOCATIONS := []; MESSAGES_PASSWORD := None;
       OPERATOR_ID := "7"; STAKING_MODULE_ID := "1" |}
    consensusApi windowed_executionApi (store []) (store []) (imports []).

(** The state the first, successful call of [exit] for validator 1
    leaves; a second call starts from it. *)
Definition once_exited : St World :=
  snd (exit node [signed_current] "0xaa" (start [])).

End Scenario.

(* ================================================================== *)
(** ** Further vocabulary *)

(** The remote calls of a trace: everything but the log lines. *)
Definition calls (t : list Effect) : list Effect :=
  filter (fun e => match e with
                   | logger _ _ => false
                   | _ => true
                   end) t.

(** The store read that [readFile] makes for a location. *)
Definition read_of (uri : string) : Effect :=
  if String.prefix "s3://" uri then s3_read uri else gs_read uri.

(** The validator-info fetch that [verify] makes for a message. *)
Definition info_fetch_of (m : ExitMessage) : Effect :=
  consensus_validatorInfo (validator_index (message m)).

Section FurtherVocabulary.
Variable World : Type.
Variable deps : Deps World.

(** The three consensus calls that [verify] makes leave the world as it
    was: the node only answers. *)
Definition read_only_node : Prop :=
  (forall w, snd (genesis (consensusApi deps) w) = w)
  /\ (forall w, snd (state (consensusApi deps) w) = w)
  /\ (forall id w, snd (validatorInfo (consensusApi deps) id w) = w).

(** Whether [verify] keeps message [m] when the node, in world [w],
    is asked about its validator. *)
Definition accepted (genesis : GenesisInfo) (state : ForkState) (w : World)
           (m : ExitMessage) : bool :=
  match fst (validatorInfo (consensusApi deps)
                           (validator_index (message m)) w) with
  | Ok answer =>
      negb (isExiting answer)
      && (signed_under deps genesis answer m (current_version state)
          || signed_under deps genesis answer m (previous_version state))
  | Throw _ => false
  end.

(** What one turn of [load]'s loop may do: one store read and no other
    call; no counter moved but, at most once, the invalid-message one; and
    the list left as it was, or extended by one validated and unwrapped
    message, or an error thrown. *)
Definition location_outcome (file : string) (messages : list ExitMessage)
           (s : St World) (r : result (list ExitMessage)) (s' : St World)
  : Prop :=
  calls (trace s') = calls (trace s) ++ [read_of file]
  /\ exitMessages_valid_true (metrics s') = exitMessages_valid_true (metrics s)
  /\ exitActions_success (metrics s') = exitActions_success (metrics s)
  /\ exitActions_error (metrics s') = exitActions_error (metrics s)
  /\ ((r = Ok messages
       /\ (exitMessages_valid_false (metrics s')
           = exitMessages_valid_false (metrics s)
           \/ exitMessages_valid_false (metrics s')
              = S (exitMessages_valid_false (metrics s))))
      \/ (exists j validated,
             exitOrEthDoExitDTO (imports deps) j = Ok validated
             /\ r = Ok (messages ++ [unwrap validated])
             /\ exitMessages_valid_false (metrics s')
                = exitMessages_valid_false (metrics s))
      \/ (exists e, r = Throw e
                    /\ exitMessages_valid_false (metrics s')
                       = exitMessages_valid_false (metrics s))).

End FurtherVocabulary.

(* ================================================================== *)
(** ** The validators of lido-nanolib *)

Module Nanolib.

(** [value.key] on the fields of an object: [None] is [undefined].  The
    field list holds each key once, as [JSON.parse] builds objects. *)
Definition property (key : string) (fields : list (string * json))
  : option json :=
  option_map snd (find (fun kv => String.eqb (fst kv) key) fields).

(** The text thrown by a check that was given no message of its own; the
    library's wording is not modelled. *)
Definition message_or (errorMessage : option string) (fallback : string)
  : string :=
  match errorMessage with
  | Some text => text
  | None => fallback
  end.

(** Modelled from the spec: [str(value, errorMessage)] of lido-nanolib,
    which is not among the sources.  A field that is missing or is not a
    string fails with the named error; a string is returned as it is,
    never coerced. *)
Definition str (value : option json) (errorMessage : option string)
  : result string :=
  match value with
  | Some (JStr text) => Ok text
  | _ => Throw (message_or errorMessage "Invalid string input")
  end.

(** Modelled from the spec: [obj(value, cb, errorMessage)] of
    lido-nanolib: a value that is missing or is not an object fails with
    the named error; on an object the result is that of [cb], whose own
    errors pass through. *)
Definition obj {A : Type} (value : option json)
           (cb : list (string * json) -> result A)
           (errorMessage : option string) : result A :=
  match value with
  | Some (JObj fields) => cb fields
  | _ => Throw (message_or errorMessage "Invalid object input")
  end.

(** Whether a property is present and a string. *)
Definition is_string (value : option json) : bool :=
  match value with
  | Some (JStr _) => true
  | _ => false
  end.

End Nanolib.

(* ================================================================== *)
(** ** The DTOs of the consensus API: [syncingDTO], [genesisDTO],
    [stateDTO], [validatorInfoDTO] *)

Module ConsensusDto.
Import Nanolib.

(** The [{ data: ... }] wrapper every response has. *)
Record Response (A : Type) := { data : A }.
Arguments data {A} _.

Record Syncing := {
  head_slot : string;
  sync_distance : string;
  is_syncing : bool;
  is_optimistic : bool
}.

Record Genesis := {
  genesis_time : string;
  genesis_validators_root : string;
  genesis_fork_version : string
}.

Record State := {
  previous_version : string;
  current_version : string;
  epoch : string
}.

Record Validator := { pubkey : string }.

Record ValidatorData := {
  index : string;
  status : string;
  validator : Validator
}.

(** The properties of an object literal are evaluated in the order they
    are written: the first check that throws decides the error. *)
Definition and_then {A B : Type} (r : result A) (k : A -> result B)
  : result B :=
  match r with
  | Ok a => k a
  | Throw e => Throw e
  end.

(** [export const syncingDTO].  Which values [bool] of lido-nanolib takes
    for a boolean, and what it makes of them, is not in the sources: it is
    the parameter [bool_]. *)
Definition syncingDTO (bool_ : option json -> option string -> result bool)
           (json : option json) : result (Response Syncing) :=
  obj json
      (fun json =>
         and_then
           (obj (property "data" json)
                (fun data =>
                   and_then (str (property "head_slot" data) None) (fun a =>
                   and_then (str (property "sync_distance" data) None) (fun b =>
                   and_then (bool_ (property "is_syncing" data) None) (fun c =>
                   and_then (bool_ (property "is_optimistic" data) None) (fun d =>
                   Ok {| head_slot := a; sync_distance := b;
                         is_syncing := c; is_optimistic := d |})))))
                None)
           (fun d => Ok {| data := d |}))
      (Some "Invalid syncing response").

(** [export const genesisDTO] *)
Definition genesisDTO (json : option json) : result (Response Genesis) :=
  obj json
      (fun json =>
         and_then
           (obj (property "data" json)
                (fun data =>
                   and_then (str (property "genesis_time" data)
                                 (Some "Invalid genesis_time input")) (fun a =>
                   and_then (str (property "genesis_validators_root" data)
                                 (Some "Invalid genesis_validators_root input"))
                            (fun b =>
                   and_then (str (property "genesis_fork_version" data)
                                 (Some "Invalid genesis_fork_version input"))
                            (fun c =>
                   Ok {| genesis_time := a; genesis_validators_root := b;
                         genesis_fork_version := c |}))))
                None)
           (fun d => Ok {| data := d |}))
      (Some "Invalid genesis response").

(** [export const stateDTO] *)
Definition stateDTO (json : option json) : result (Response State) :=
  obj json
      (fun json =>
         and_then
           (obj (property "data" json)
                (fun data =>
                   and_then (str (property "previous_version" data)
                                 (Some "Invalid previous_version input")) (fun a =>
                   and_then (str (property "current_version" data)
                                 (Some "Invalid current_version input")) (fun b =>
                   and_then (str (property "epoch" data)
                                 (Some "Invalid epoch input")) (fun c =>
                   Ok {| previous_version := a; current_version := b;
                         epoch := c |}))))
                None)
           (fun d => Ok {| data := d |}))
      (Some "Invalid state response").

(** [export const validatorInfoDTO] *)
Definition validatorInfoDTO (json : option json)
  : result (Response ValidatorData) :=
  obj json
      (fun json =>
         and_then
           (obj (property "data" json)
                (fun data =>
                   and_then (str (property "index" data)
                                 (Some "Invalid validator index")) (fun a =>
                   and_then (str (property "status" data)
                                 (Some "Invalid status")) (fun b =>
                   and_then
                     (obj (property "validator" data)
                          (fun validator =>
                             and_then (str (property "pubkey" validator)
                                           (Some "Invalid pubkey")) (fun p =>
                             Ok {| pubkey := p |}))
                          None)
                     (fun c =>
                   Ok {| index := a; status := b; validator := c |}))))
                None)
           (fun d => Ok {| data := d |}))
      (Some "Invalid validator info response").

End ConsensusDto.

(* ================================================================== *)
(** ** Signature verification: [verify] *)

(** Runs the straight-line part of a monadic program on its state. *)
Ltac run_js :=
  unfold bind, try_catch, attempt, emit, ret, throw, lift,
    metrics_exitMessages_inc, metrics_exitActions_inc, after;
  cbn -[String.append];
  rewrite <- ?app_assoc;
  cbn -[String.append].

Section VerifyFacts.
Variable World : Type.
Variable deps : Deps World.

Let lib := imports deps.
Let api := consensusApi deps.

Lemma verifyFork_run genesis info m fork_version s :
  verifyFork deps (fromHex lib (pubKey info)) (fromHex lib (signature m))
             (fromHex lib (genesis_validators_root genesis))
             (epoch (message m)) (validator_index (message m))
             (fromHex lib fork_version) s
  = (Ok (signed_under deps genesis info m fork_version),
     after s (world s) (metrics s)
           [verifyFork_logged deps
              (signed_under deps genesis info m fork_version) m fork_version]).
Proof. reflexivity. Qed.

Lemma verify_loop_app genesis state l1 l2 acc s :
  verify_loop deps genesis state (l1 ++ l2) acc s
  = match verify_loop deps genesis state l1 acc s with
    | (Ok acc1, s1) => verify_loop deps genesis state l2 acc1 s1
    | (Throw e, s1) => (Throw e, s1)
    end.
Proof.
  revert acc s. induction l1 as [|m l1 IH]; intros acc s; simpl.
  - reflexivity.
  - unfold bind.
    destruct (verify_message deps genesis state m acc s) as [[acc'|e] s'].
    + apply IH.
    + reflexivity.
Qed.

(** [verify] once both shared fetches have answered. *)
Lemma verify_after_fetches messages s g w1 st w2 :
  genesis api (world s) = (Ok g, w1) ->
  state api w1 = (Ok st, w2) ->
  verify deps messages s
  = verify_loop deps g st messages []
      (after s w2 (metrics s) [consensus_genesis; consensus_state]).
Proof.
  intros Hg Hs. unfold verify, bind, await. fold api. rewrite Hg. simpl.
  rewrite Hs. unfold after. simpl. rewrite <- app_assoc. reflexivity.
Qed.

(** One message whose validator-info fetch failed. *)
Lemma verify_message_fetch_failed genesis state m acc s e w :
  validatorInfo api (validator_index (message m)) (world s) = (Throw e, w) ->
  verify_message deps genesis state m acc s
  = (Ok acc,
     after s w (exitMessages_inc false (metrics s))
           [consensus_validatorInfo (validator_index (message m));
            logger error_level
              ("Failed to get validator info for index "
               ++ validator_index (message m))]).
Proof.
  intros Hi. unfold verify_message, bind, attempt, await. fold api.
  rewrite Hi. unfold after. simpl. rewrite <- app_assoc. reflexivity.
Qed.

(** One message of an already exiting validator. *)
Lemma verify_message_isExiting genesis state m acc s info w :
  validatorInfo api (validator_index (message m)) (world s) = (Ok info, w) ->
  isExiting info = true ->
  verify_message deps genesis state m acc s
  = (Ok acc,
     after s w (exitMessages_inc false (metrics s))
           [consensus_validatorInfo (validator_index (message m));
            logger debug (pubKey info ++ " exiting(ed), skipping validation")]).
Proof.
  intros Hi He. unfold verify_message, bind, attempt, await. fold api.
  rewrite Hi. simpl. rewrite He. unfold after. simpl.
  rewrite <- app_assoc. reflexivity.
Qed.

(** One message that verifies under one of the two forks. *)
Lemma verify_message_signed genesis state m acc s info w :
  validatorInfo api (validator_index (message m)) (world s) = (Ok info, w) ->
  isExiting info = false ->
  signed_under deps genesis info m (current_version state) = true
  \/ signed_under deps genesis info m (previous_version state) = true ->
  verify_message deps genesis state m acc s
  = (Ok (acc ++ [m]),
     after s w (exitMessages_inc true (metrics s))
           (consensus_validatorInfo (validator_index (message m))
            :: fork_checks deps genesis state info m)).
Proof.
  intros Hi He Hv. unfold verify_message.
  unfold bind at 1. unfold attempt, await. fold api. rewrite Hi. simpl.
  rewrite He. unfold bind at 1. fold lib. rewrite verifyFork_run.
  unfold fork_checks.
  destruct (signed_under deps genesis info m (current_version state)) eqn:Hc; simpl.
  - unfold after. simpl. rewrite <- app_assoc. reflexivity.
  - destruct Hv as [Hv|Hv]; [discriminate|].
    unfold bind at 1. rewrite verifyFork_run. rewrite Hv. simpl.
    unfold after. simpl. rewrite <- !app_assoc. reflexivity.
Qed.

(** One message that verifies under neither fork. *)
Lemma verify_message_unsigned genesis state m acc s info w :
  validatorInfo api (validator_index (message m)) (world s) = (Ok info, w) ->
  isExiting info = false ->
  signed_under deps genesis info m (current_version state) = false ->
  signed_under deps genesis info m (previous_version state) = false ->
  verify_message deps genesis state m acc s
  = (Ok acc,
     after s w (exitMessages_inc false (metrics s))
           (consensus_validatorInfo (validator_index (message m))
            :: fork_checks deps genesis state info m
            ++ [logger error_level
                  ("Invalid signature for validator "
                   ++ validator_index (message m))])).
Proof.
  intros Hi He Hc Hp. unfold verify_message.
  unfold bind at 1. unfold attempt, await. fold api. rewrite Hi. simpl.
  rewrite He. unfold bind at 1. fold lib. rewrite verifyFork_run.
  unfold fork_checks. rewrite Hc. simpl.
  unfold bind at 1. rewrite verifyFork_run. rewrite Hp. simpl.
  run_js. reflexivity.
Qed.

(** The body of the loop never throws: it keeps the message and counts
    it valid, or drops it and counts it invalid. *)
Lemma verify_message_cases genesis state m acc s :
  exists acc' s',
    verify_message deps genesis state m acc s = (Ok acc', s')
    /\ ((acc' = acc
         /\ metrics s' = exitMessages_inc false (metrics s))
        \/ (acc' = acc ++ [m]
            /\ metrics s' = exitMessages_inc true (metrics s))).
Proof.
  destruct (validatorInfo api (validator_index (message m)) (world s))
    as [[info|e] w] eqn:Hi.
  - destruct (isExiting info) eqn:He.
    + rewrite (verify_message_isExiting genesis state m acc s Hi He).
      eexists _, _. split; [reflexivity|]. left. split; reflexivity.
    + destruct (signed_under deps genesis info m (current_version state)) eqn:Hc.
      * rewrite (verify_message_signed genesis state m acc s Hi He (or_introl Hc)).
        eexists _, _. split; [reflexivity|]. right. split; reflexivity.
      * destruct (signed_under deps genesis info m (previous_version state)) eqn:Hp.
        -- rewrite (verify_message_signed genesis state m acc s Hi He (or_intror Hp)).
           eexists _, _. split; [reflexivity|]. right. split; reflexivity.
        -- rewrite (verify_message_unsigned genesis state m acc s Hi He Hc Hp).
           eexists _, _. split; [reflexivity|]. left. split; reflexivity.
  - rewrite (verify_message_fetch_failed genesis state m acc s Hi).
    eexists _, _. split; [reflexivity|]. left. split; reflexivity.
Qed.

(** The loop never throws; what it adds to the accumulator is a
    subsequence of the messages, each kept message counted valid once and
    each dropped message counted invalid once. *)
Lemma verify_loop_outcome genesis state messages acc s :
  exists out s',
    verify_loop deps genesis state messages acc s = (Ok (acc ++ out), s')
    /\ Subsequence out messages
    /\ exitMessages_valid_true (metrics s')
       = exitMessages_valid_true (metrics s) + length out
    /\ exitMessages_valid_false (metrics s') + length out
       = exitMessages_valid_false (metrics s) + length messages
    /\ exitActions_success (metrics s') = exitActions_success (metrics s)
    /\ exitActions_error (metrics s') = exitActions_error (metrics s).
Proof.
  revert acc s. induction messages as [|m rest IH]; intros acc s.
  - exists [], s. simpl. rewrite app_nil_r.
    repeat split; try lia. constructor.
  - simpl. unfold bind.
    destruct (verify_message_cases genesis state m acc s)
      as (acc' & s1 & Hrun & Hcase).
    rewrite Hrun.
    destruct (IH acc' s1) as (out & s' & Hloop & Hsub & Ht & Hf & Hs & He).
    rewrite Hloop.
    destruct Hcase as [[-> Hm]|[-> Hm]]; rewrite Hm in Ht, Hf, Hs, He;
      simpl in Ht, Hf, Hs, He.
    + exists out, s'. repeat split; simpl; try lia.
      now apply Subsequence_skip.
    + exists (m :: out), s'. rewrite <- app_assoc. simpl.
      repeat split; simpl; try lia. now apply Subsequence_keep.
Qed.

End VerifyFacts.

(** C1, as stated, fails: validator 1 has already initiated its exit, its
    message is left out of the result of [verify], and the invalid-message
    counter (valid = 'false') went from 0 to 1 for it. *)
Lemma verify_exiting_validator_counted_invalid :
  Scenario.validatorInfo "1" ["1"]
  = (Ok {| index := "1"; pubKey := "0xaa"; isExiting := true |}, ["1"])
  /\ fst (verify Scenario.node [Scenario.signed_current] (Scenario.start ["1"]))
     = Ok []
  /\ ~ exitMessages_valid_false
         (metrics (snd (verify Scenario.node [Scenario.signed_current]
                               (Scenario.start ["1"]))))
       = exitMessages_valid_false (metrics (Scenario.start ["1"])).
Proof.
  split; [reflexivity|]. split; [reflexivity|].
  vm_compute. discriminate.
Qed.

(** C1 (amended).  A message reached by the loop of [verify] while its
    validator's info reports [isExiting] is left out of the returned list,
    and the invalid-message counter (valid = 'false') is incremented
    exactly once for it: after the messages [pre] before it, [verify]
    goes on with the remaining messages [post] from the same accumulated
    list, with that one increment and nothing else changed in the
    metrics. *)
Theorem verify_skips_exiting_validator_as_invalid
        (World : Type) (deps : Deps World)
        (pre : list ExitMessage) (m : ExitMessage) (post : list ExitMessage)
        (s : St World) g w1 st w2 acc s3 info w4 :
  genesis (consensusApi deps) (world s) = (Ok g, w1) ->
  state (consensusApi deps) w1 = (Ok st, w2) ->
  verify_loop deps g st pre []
    (after s w2 (metrics s) [consensus_genesis; consensus_state]) = (Ok acc, s3) ->
  validatorInfo (consensusApi deps) (validator_index (message m)) (world s3)
  = (Ok info, w4) ->
  isExiting info = true ->
  verify deps (pre ++ m :: post) s
  = verify_loop deps g st post acc
      (after s3 w4 (exitMessages_inc false (metrics s3))
             [consensus_validatorInfo (validator_index (message m));
              logger debug (pubKey info ++ " exiting(ed), skipping validation")]).
Proof.
  intros Hg Hst Hpre Hi He.
  rewrite (verify_after_fetches deps (pre ++ m :: post) s Hg Hst).
  rewrite verify_loop_app, Hpre. simpl. unfold bind.
  rewrite (verify_message_isExiting deps g st m acc s3 Hi He).
  reflexivity.
Qed.

Lemma verify_skips_exiting_validator_as_invalid_witness :
  verify Scenario.node ([] ++ Scenario.signed_current :: []) (Scenario.start ["1"])
  = verify_loop Scenario.node
      {| genesis_validators_root := "0x01" |}
      {| previous_version := "0x03"; current_version := "0x02" |}
      [] []
      (after (after (Scenario.start ["1"]) ["1"] no_metrics
                    [consensus_genesis; consensus_state])
             ["1"] (exitMessages_inc false no_metrics)
             [consensus_validatorInfo "1";
              logger debug ("0xaa" ++ " exiting(ed), skipping validation")]).
Proof.
  apply (@verify_skips_exiting_validator_as_invalid
           Scenario.World Scenario.node [] Scenario.signed_current []
           (Scenario.start ["1"])
           {| genesis_validators_root := "0x01" |} ["1"]
           {| previous_version := "0x03"; current_version := "0x02" |} ["1"]
           []
           (after (Scenario.start ["1"]) ["1"] no_metrics
                  [consensus_genesis; consensus_state])
           {| index := "1"; pubKey := "0xaa"; isExiting := true |} ["1"]);
    reflexivity.
Defined.


(** C4.  A message reached by the loop of [verify] whose validator is not
    exiting and whose signature verifies under the current fork version,
    or under the previous one, is in the list that [verify] returns,
    unchanged and right after the messages kept before it, and the
    valid-message counter (valid = 'true') is incremented exactly once for
    it.  The fork checks made for it are the current fork alone when that
    one verifies, and otherwise the current fork (failing) followed by the
    previous fork. *)
Theorem verify_accepts_signed_under_either_fork
        (World : Type) (deps : Deps World)
        (pre : list ExitMessage) (m : ExitMessage) (post : list ExitMessage)
        (s : St World) g w1 st w2 acc s3 info w4 :
  genesis (consensusApi deps) (world s) = (Ok g, w1) ->
  state (consensusApi deps) w1 = (Ok st, w2) ->
  verify_loop deps g st pre []
    (after s w2 (metrics s) [consensus_genesis; consensus_state]) = (Ok acc, s3) ->
  validatorInfo (consensusApi deps) (validator_index (message m)) (world s3)
  = (Ok info, w4) ->
  isExiting info = false ->
  signed_under deps g info m (current_version st) = true
  \/ signed_under deps g info m (previous_version st) = true ->
  exists kept s',
    verify deps (pre ++ m :: post) s = (Ok (acc ++ m :: kept), s')
    /\ Subsequence kept post
    /\ verify_loop deps g st (pre ++ [m]) []
         (after s w2 (metrics s) [consensus_genesis; consensus_state])
       = (Ok (acc ++ [m]),
          after s3 w4 (exitMessages_inc true (metrics s3))
                (consensus_validatorInfo (validator_index (message m))
                 :: (if signed_under deps g info m (current_version st)
                     then [verifyFork_logged deps true m (current_version st)]
                     else [verifyFork_logged deps false m (current_version st);
                           verifyFork_logged deps true m (previous_version st)])))
    /\ exitMessages_valid_true (metrics s')
       = S (exitMessages_valid_true (metrics s3)) + length kept.
Proof.
  intros Hg Hst Hpre Hi He Hv.
  assert (Hm : verify_message deps g st m acc s3
               = (Ok (acc ++ [m]),
                  after s3 w4 (exitMessages_inc true (metrics s3))
                    (consensus_validatorInfo (validator_index (message m))
                     :: (if signed_under deps g info m (current_version st)
                         then [verifyFork_logged deps true m (current_version st)]
                         else [verifyFork_logged deps false m (current_version st);
                               verifyFork_logged deps true m
                                                 (previous_version st)])))).
  { rewrite (verify_message_signed deps g st m acc s3 Hi He Hv).
    unfold fork_checks.
    destruct (signed_under deps g info m (current_version st)); [reflexivity|].
    destruct Hv as [Hv|Hv]; [discriminate|]. rewrite Hv. reflexivity. }
  rewrite (verify_after_fetches deps (pre ++ m :: post) s Hg Hst).
  rewrite !verify_loop_app, Hpre. simpl. unfold bind. rewrite Hm.
  match goal with |- context [verify_loop deps g st post (acc ++ [m]) ?x] =>
    destruct (verify_loop_outcome deps g st post (acc ++ [m]) x)
      as (kept & s' & Hrun & Hsub & Ht & _) end.
  exists kept, s'. rewrite Hrun, <- app_assoc. simpl in Ht.
  repeat split; assumption.
Qed.

Lemma verify_accepts_signed_under_either_fork_witness :
  exists kept s',
    verify Scenario.node
           ([Scenario.signed_badly]
              ++ Scenario.signed_previous :: [Scenario.signed_current])
           (Scenario.start [])
    = (Ok ([] ++ Scenario.signed_previous :: kept), s')
    /\ Subsequence kept [Scenario.signed_current]
    /\ verify_loop Scenario.node
         {| genesis_validators_root := "0x01" |}
         {| previous_version := "0x03"; current_version := "0x02" |}
         ([Scenario.signed_badly] ++ [Scenario.signed_previous]) []
         (after (Scenario.start []) [] (metrics (Scenario.start []))
                [consensus_genesis; consensus_state])
       = (Ok ([] ++ [Scenario.signed_previous]),
          after (snd (verify Scenario.node [Scenario.signed_badly]
                             (Scenario.start [])))
                [] (exitMessages_inc true
                      (metrics (snd (verify Scenario.node [Scenario.signed_badly]
                                            (Scenario.start [])))))
                [consensus_validatorInfo "1";
                 logger debug "Singature invalid for validator 1 for fork 0x02";
                 logger debug "Singature valid for validator 1 for fork 0x03"])
    /\ exitMessages_valid_true (metrics s')
       = S (exitMessages_valid_true
              (metrics (snd (verify Scenario.node [Scenario.signed_badly]
                                    (Scenario.start [])))))
         + length kept.
Proof.
  apply (@verify_accepts_signed_under_either_fork
           Scenario.World Scenario.node
           [Scenario.signed_badly] Scenario.signed_previous
           [Scenario.signed_current] (Scenario.start [])
           {| genesis_validators_root := "0x01" |} []
           {| previous_version := "0x03"; current_version := "0x02" |} []
           []
           (snd (verify Scenario.node [Scenario.signed_badly]
                        (Scenario.start [])))
           {| index := "1"; pubKey := "0xaa"; isExiting := false |} []);
    try reflexivity.
  right. reflexivity.
Defined.

(** The run of the witness above, in full: of the three messages for
    validator 1, the badly signed one is dropped and the two others are
    returned in their order, the one signed under the previous fork after
    the current fork failed for it. *)
Example verify_keeps_previous_fork_message :
  verify Scenario.node
         [Scenario.signed_badly; Scenario.signed_previous;
          Scenario.signed_current]
         (Scenario.start [])
  = (Ok [Scenario.signed_previous; Scenario.signed_current],
     {| world := [];
        metrics := {| exitMessages_valid_true := 2; exitMessages_valid_false := 1;
                      exitActions_success := 0; exitActions_error := 0 |};
        trace :=
          [consensus_genesis; consensus_state;
           consensus_validatorInfo "1";
           logger debug "Singature invalid for validator 1 for fork 0x02";
           logger debug "Singature invalid for validator 1 for fork 0x03";
           logger error_level "Invalid signature for validator 1";
           consensus_validatorInfo "1";
           logger debug "Singature invalid for validator 1 for fork 0x02";
           logger debug "Singature valid for validator 1 for fork 0x03";
           consensus_validatorInfo "1";
           logger debug "Singature valid for validator 1 for fork 0x02"] |}).
Proof. reflexivity. Qed.

(* ================================================================== *)
(** ** The exit trigger: [exit] *)

Section ExitFacts.
Variable World : Type.
Variable deps : Deps World.

Let api := consensusApi deps.


Lemma exit_first_fetch_throws messages pubKey s e w :
  validatorInfo api pubKey (world s) = (Throw e, w) ->
  exit deps messages pubKey s
  = (Throw e, after s w (metrics s) [consensus_validatorInfo pubKey]).
Proof.
  intros H. unfold exit, bind, await. fold api. rewrite H. reflexivity.
Qed.

Lemma exit_already_exiting messages pubKey s first w :
  validatorInfo api pubKey (world s) = (Ok first, w) ->
  isExiting first = true ->
  exit deps messages pubKey s
  = (Ok tt,
     after s w (metrics s)
           [consensus_validatorInfo pubKey;
            logger debug ("Exit was initiated, but " ++ pubKey
                          ++ " is already exiting(ed), skipping")]).
Proof.
  intros H He. unfold exit. unfold bind at 1. unfold await. fold api.
  rewrite H, He. run_js. reflexivity.
Qed.

Lemma exit_second_fetch_throws messages pubKey s first w1 e w2 :
  validatorInfo api pubKey (world s) = (Ok first, w1) ->
  isExiting first = false ->
  validatorInfo api pubKey w1 = (Throw e, w2) ->
  exit deps messages pubKey s
  = (Throw e,
     after s w2 (metrics s)
           [consensus_validatorInfo pubKey; consensus_validatorInfo pubKey]).
Proof.
  intros H1 He H2. unfold exit. unfold bind at 1. unfold await. fold api.
  rewrite H1, He. unfold bind at 1. cbn [world]. rewrite H2.
  run_js. reflexivity.
Qed.

(** Past both fetches: the rest of [exit] is decided by the index of the
    second answer. *)
Lemma exit_resolved messages pubKey s first w1 second w2 :
  validatorInfo api pubKey (world s) = (Ok first, w1) ->
  isExiting first = false ->
  validatorInfo api pubKey w1 = (Ok second, w2) ->
  exit deps messages pubKey s
  = match find_message messages (index second) with
    | None =>
        (Ok tt,
         after s w2 (exitActions_inc error (metrics s))
               [consensus_validatorInfo pubKey; consensus_validatorInfo pubKey;
                logger error_level
                  "Validator needs to be exited but required message was not found / accessible!"])
    | Some m =>
        match exitRequest api m w2 with
        | (Ok _, w3) =>
            (Ok tt,
             after s w3 (exitActions_inc success (metrics s))
                   [consensus_validatorInfo pubKey; consensus_validatorInfo pubKey;
                    consensus_exitRequest m;
                    logger info
                      "Voluntary exit message sent successfully to Consensus Layer"])
        | (Throw _, w3) =>
            (Ok tt,
             after s w3 (exitActions_inc error (metrics s))
                   [consensus_validatorInfo pubKey; consensus_validatorInfo pubKey;
                    consensus_exitRequest m;
                    logger error_level "Failed to send out exit message"])
        end
    end.
Proof.
  intros H1 He H2. unfold exit. unfold bind at 1. unfold await. fold api.
  rewrite H1, He. unfold bind at 1. cbn [world]. rewrite H2.
  destruct (find_message messages (index second)) as [m|].
  - unfold try_catch, bind, await. cbn [world]. fold api.
    destruct (exitRequest api m w2) as [[u|e] w3]; run_js; reflexivity.
  - run_js. reflexivity.
Qed.

End ExitFacts.



(** C8, as stated, fails: for validator 1, which is not exiting, [exit]
    asks [consensusApi.validatorInfo] for the pubkey twice, not once. *)
Lemma exit_fetches_validator_info_twice :
  Scenario.validatorInfo "0xaa" []
  = (Ok {| index := "1"; pubKey := "0xaa"; isExiting := false |}, [])
  /\ validatorInfo_calls
       (trace (snd (exit Scenario.node [Scenario.signed_current] "0xaa"
                         (Scenario.start []))))
     = ["0xaa"; "0xaa"]
  /\ ~ length (validatorInfo_calls
                 (trace (snd (exit Scenario.node [Scenario.signed_current] "0xaa"
                                   (Scenario.start []))))) = 1.
Proof.
  split; [reflexivity|]. split; [reflexivity|].
  vm_compute. discriminate.
Qed.

(** C8 (amended).  For a validator that is not already exiting, [exit]
    fetches the validator info for the pubkey exactly twice: the first
    answer decides the [isExiting] check, and the index that locates the
    message is read from the second answer, so that the only message
    [exit] may submit is the first one carrying that index. *)
Theorem exit_resolves_index_from_second_fetch
        (World : Type) (deps : Deps World)
        (messages : list ExitMessage) (pubKey : string) (s : St World)
        first w1 second w2 :
  validatorInfo (consensusApi deps) pubKey (world s) = (Ok first, w1) ->
  isExiting first = false ->
  validatorInfo (consensusApi deps) pubKey w1 = (Ok second, w2) ->
  validatorInfo_calls (trace (snd (exit deps messages pubKey s)))
  = validatorInfo_calls (trace s) ++ [pubKey; pubKey]
  /\ exitRequest_calls (trace (snd (exit deps messages pubKey s)))
     = exitRequest_calls (trace s)
       ++ match find_message messages (index second) with
          | Some m => [m]
          | None => []
          end.
Proof.
  intros H1 He H2.
  rewrite (exit_resolved deps messages pubKey s H1 He H2).
  destruct (find_message messages (index second)) as [m|].
  - destruct (exitRequest (consensusApi deps) m w2) as [[u|e] w3]; simpl;
      unfold validatorInfo_calls, exitRequest_calls;
      rewrite !flat_map_app; split; reflexivity.
  - simpl. unfold validatorInfo_calls, exitRequest_calls.
    rewrite !flat_map_app. split; reflexivity.
Qed.

Lemma exit_resolves_index_from_second_fetch_witness :
  validatorInfo_calls
    (trace (snd (exit Scenario.node [Scenario.signed_current] "0xaa"
                      (Scenario.start []))))
  = validatorInfo_calls (trace (Scenario.start [])) ++ ["0xaa"; "0xaa"]
  /\ exitRequest_calls
       (trace (snd (exit Scenario.node [Scenario.signed_current] "0xaa"
                         (Scenario.start []))))
     = exitRequest_calls (trace (Scenario.start []))
       ++ match find_message [Scenario.signed_current] "1" with
          | Some m => [m]
          | None => []
          end.
Proof.
  apply (@exit_resolves_index_from_second_fetch
           Scenario.World Scenario.node [Scenario.signed_current] "0xaa"
           (Scenario.start [])
           {| index := "1"; pubKey := "0xaa"; isExiting := false |} []
           {| index := "1"; pubKey := "0xaa"; isExiting := false |} []);
    reflexivity.
Defined.

(** C9.  When the validator info fetched by [exit] reports [isExiting],
    [exit] is a no-op: it returns after that one fetch and a debug line,
    with the metrics as they were and no exit request submitted.  A call
    that follows a successful submission, the node then reporting the
    validator as exiting, therefore submits nothing again. *)
Theorem exit_is_noop_on_exiting_validator
        (World : Type) (deps : Deps World)
        (messages : list ExitMessage) (pubKey : string) (s : St World)
        first w :
  validatorInfo (consensusApi deps) pubKey (world s) = (Ok first, w) ->
  isExiting first = true ->
  exit deps messages pubKey s
  = (Ok tt,
     after s w (metrics s)
           [consensus_validatorInfo pubKey;
            logger debug ("Exit was initiated, but " ++ pubKey
                          ++ " is already exiting(ed), skipping")])
  /\ metrics (snd (exit deps messages pubKey s)) = metrics s
  /\ exitRequest_calls (trace (snd (exit deps messages pubKey s)))
     = exitRequest_calls (trace s).
Proof.
  intros H He.
  rewrite (exit_already_exiting deps messages pubKey s H He).
  split; [reflexivity|]. split; [reflexivity|].
  simpl. unfold exitRequest_calls. rewrite flat_map_app. simpl.
  now rewrite app_nil_r.
Qed.

Lemma exit_is_noop_on_exiting_validator_witness :
  exitRequest_calls (trace Scenario.once_exited) = [Scenario.signed_current]
  /\ exit Scenario.node [Scenario.signed_current] "0xaa" Scenario.once_exited
     = (Ok tt,
        after Scenario.once_exited ["1"] (metrics Scenario.once_exited)
              [consensus_validatorInfo "0xaa";
               logger debug ("Exit was initiated, but " ++ "0xaa"
                             ++ " is already exiting(ed), skipping")])
  /\ metrics (snd (exit Scenario.node [Scenario.signed_current] "0xaa" Scenario.once_exited))
     = metrics Scenario.once_exited
  /\ exitRequest_calls
       (trace (snd (exit Scenario.node [Scenario.signed_current] "0xaa"
                         Scenario.once_exited)))
     = exitRequest_calls (trace Scenario.once_exited).
Proof.
  split; [reflexivity|].
  apply (@exit_is_noop_on_exiting_validator
           Scenario.World Scenario.node [Scenario.signed_current] "0xaa"
           Scenario.once_exited
           {| index := "1"; pubKey := "0xaa"; isExiting := true |} ["1"]);
    reflexivity.
Defined.

(* ================================================================== *)
(** ** The job: [runJob] *)

Section RunJobFacts.
Variable World : Type.
Variable deps : Deps World.

Lemma logs_calls_app t1 t2 :
  logs_calls (t1 ++ t2) = logs_calls t1 ++ logs_calls t2.
Proof. apply flat_map_app. Qed.

(** [exit] never queries the event log. *)
Lemma exit_logs_calls messages pubKey s :
  logs_calls (trace (snd (exit deps messages pubKey s)))
  = logs_calls (trace s).
Proof.
  destruct (validatorInfo (consensusApi deps) pubKey (world s))
    as [[first|e] w1] eqn:H1.
  - destruct (isExiting first) eqn:He.
    + rewrite (exit_already_exiting deps messages pubKey s H1 He).
      simpl. rewrite logs_calls_app. simpl. now rewrite app_nil_r.
    + destruct (validatorInfo (consensusApi deps) pubKey w1)
        as [[second|e] w2] eqn:H2.
      * rewrite (exit_resolved deps messages pubKey s H1 He H2).
        destruct (find_message messages (index second)) as [m|];
          [destruct (exitRequest (consensusApi deps) m w2) as [[u|e] w3]|];
          simpl; rewrite logs_calls_app; simpl; now rewrite app_nil_r.
      * rewrite (exit_second_fetch_throws deps messages pubKey s H1 He H2).
        simpl. rewrite logs_calls_app. simpl. now rewrite app_nil_r.
  - rewrite (exit_first_fetch_throws deps messages pubKey s H1).
    simpl. rewrite logs_calls_app. simpl. now rewrite app_nil_r.
Qed.

(** The loop over the events returns, and never queries the event log. *)
Lemma runJob_loop_outcome messages events s :
  exists s',
    runJob_loop deps messages events s = (Ok tt, s')
    /\ logs_calls (trace s') = logs_calls (trace s).
Proof.
  revert s. induction events as [|event rest IH]; intros s; simpl.
  - exists s. split; reflexivity.
  - unfold bind, emit, try_catch.
    set (s0 := {| world := world s; metrics := metrics s;
                  trace := trace s ++ [logger info "Handling exit"] |}).
    assert (H0 : logs_calls (trace s0) = logs_calls (trace s)).
    { simpl. rewrite logs_calls_app. simpl. now rewrite app_nil_r. }
    pose proof (exit_logs_calls messages (validatorPubkey event) s0) as He.
    destruct (exit deps messages (validatorPubkey event) s0) as [[u|e] s1];
      simpl in He.
    + destruct (IH s1) as (s' & Hr & Ht). exists s'. split; [exact Hr|].
      rewrite Ht, He. exact H0.
    + match goal with |- context [runJob_loop deps messages rest ?x] =>
        destruct (IH x) as (s' & Hr & Ht) end.
      exists s'. split; [exact Hr|]. rewrite Ht. simpl.
      rewrite logs_calls_app. simpl. rewrite app_nil_r, He. exact H0.
Qed.

End RunJobFacts.

(** C5.  Once the two address resolutions have succeeded and
    [latestBlockNumber] has returned [B], [runJob] calls
    [executionApi.logs] exactly once, with the range
    [(B - eventsNumber, B)], the subtraction being that of JavaScript
    numbers: the calls of [logs] in the trace of the run are those made
    before it followed by that single one, and the rest of the run is
    decided by what the execution client answers to that very query:
    its error escapes, or the events it returns are the ones handled,
    from the world it leaves. *)
Theorem runJob_queries_logs_once_for_window
        (World : Type) (deps : Deps World)
        (eventsNumber : float) (messages : list ExitMessage) (s : St World)
        u1 w1 u2 w2 B w3 :
  resolveExitBusAddress (executionApi deps) (world s) = (Ok u1, w1) ->
  resolveConsensusAddress (executionApi deps) w1 = (Ok u2, w2) ->
  latestBlockNumber (executionApi deps) w2 = (Ok B, w3) ->
  logs_calls (trace (snd (runJob deps eventsNumber messages s)))
  = logs_calls (trace s) ++ [((B - eventsNumber)%float, B)]
  /\ runJob deps eventsNumber messages s
     = match logs (executionApi deps) (B - eventsNumber)%float B w3 with
       | (Throw e, w4) =>
           (Throw e,
            after s w4 (metrics s)
                  [logger info "Job started";
                   execution_resolveExitBusAddress;
                   execution_resolveConsensusAddress;
                   execution_latestBlockNumber;
                   logger info "Fetched the latest block from EL";
                   logger info "Fetching request events from the Exit Bus";
                   execution_logs (B - eventsNumber)%float B])
       | (Ok eventsForEject, w4) =>
           match runJob_loop deps messages eventsForEject
                   (after s w4 (metrics s)
                          [logger info "Job started";
                           execution_resolveExitBusAddress;
                           execution_resolveConsensusAddress;
                           execution_latestBlockNumber;
                           logger info "Fetched the latest block from EL";
                           logger info "Fetching request events from the Exit Bus";
                           execution_logs (B - eventsNumber)%float B;
                           logger info "Handling ejection requests"]) with
           | (Ok _, s') =>
               (Ok tt,
                after s' (world s') (metrics s') [logger info "Job finished"])
           | (Throw e, s') => (Throw e, s')
           end
       end.
Proof.
  intros H1 H2 H3.
  assert (Hrun :
    runJob deps eventsNumber messages s
    = match logs (executionApi deps) (B - eventsNumber)%float B w3 with
      | (Throw e, w4) =>
          (Throw e,
           after s w4 (metrics s)
                 [logger info "Job started";
                  execution_resolveExitBusAddress;
                  execution_resolveConsensusAddress;
                  execution_latestBlockNumber;
                  logger info "Fetched the latest block from EL";
                  logger info "Fetching request events from the Exit Bus";
                  execution_logs (B - eventsNumber)%float B])
      | (Ok eventsForEject, w4) =>
          match runJob_loop deps messages eventsForEject
                  (after s w4 (metrics s)
                         [logger info "Job started";
                          execution_resolveExitBusAddress;
                          execution_resolveConsensusAddress;
                          execution_latestBlockNumber;
                          logger info "Fetched the latest block from EL";
                          logger info "Fetching request events from the Exit Bus";
                          execution_logs (B - eventsNumber)%float B;
                          logger info "Handling ejection requests"]) with
          | (Ok _, s') =>
              (Ok tt,
               after s' (world s') (metrics s') [logger info "Job finished"])
          | (Throw e, s') => (Throw e, s')
          end
      end).
  { unfold runJob.
    unfold bind at 1. unfold emit at 1.
    unfold bind at 1. unfold await at 1. cbn [world]. rewrite H1.
    unfold bind at 1. unfold await at 1. cbn [world]. rewrite H2.
    unfold bind at 1. unfold await at 1. cbn [world]. rewrite H3.
    unfold bind at 1. unfold emit at 1.
    unfold bind at 1. unfold emit at 1.
    unfold bind at 1. unfold await at 1. cbn [world metrics trace].
    destruct (logs (executionApi deps) (B - eventsNumber)%float B w3)
      as [[events|e] w4].
    - unfold bind at 1. unfold emit at 1. cbn [world metrics trace].
      unfold bind at 1. unfold after. rewrite <- !app_assoc. simpl.
      match goal with |- context [runJob_loop deps messages events ?x] =>
        destruct (runJob_loop deps messages events x) as [[u|e] s'] end;
        reflexivity.
    - unfold after. cbn [world metrics trace]. rewrite <- !app_assoc.
      reflexivity. }
  split; [|exact Hrun].
  rewrite Hrun.
  destruct (logs (executionApi deps) (B - eventsNumber)%float B w3)
    as [[events|e] w4].
  - match goal with |- context [runJob_loop deps messages events ?x] =>
      destruct (runJob_loop_outcome deps messages events x) as (s' & Hr & Ht)
    end.
    rewrite Hr. simpl. simpl in Ht.
    rewrite logs_calls_app, Ht. rewrite !logs_calls_app. simpl.
    rewrite ?app_nil_r. reflexivity.
  - simpl. rewrite !logs_calls_app. simpl. rewrite ?app_nil_r. reflexivity.
Qed.

Lemma runJob_queries_logs_once_for_window_witness :
  (1000 - 100)%float = 900%float
  /\ logs_calls
       (trace (snd (runJob Scenario.windowed 100 [Scenario.signed_current]
                           (Scenario.start []))))
     = logs_calls (trace (Scenario.start [])) ++ [(900%float, 1000%float)]
  /\ runJob Scenario.windowed 100 [Scenario.signed_current] (Scenario.start [])
     = (Ok tt,
        {| world := ["1"];
           metrics := {| exitMessages_valid_true := 0;
                         exitMessages_valid_false := 0;
                         exitActions_success := 1;
                         exitActions_error := 0 |};
           trace := [logger info "Job started";
                     execution_resolveExitBusAddress;
                     execution_resolveConsensusAddress;
                     execution_latestBlockNumber;
                     logger info "Fetched the latest block from EL";
                     logger info "Fetching request events from the Exit Bus";
                     execution_logs 900 1000;
                     logger info "Handling ejection requests";
                     logger info "Handling exit";
                     consensus_validatorInfo "0xaa";
                     consensus_validatorInfo "0xaa";
                     consensus_exitRequest Scenario.signed_current;
                     logger info
                       "Voluntary exit message sent successfully to Consensus Layer";
                     logger info "Job finished"] |}).
Proof.
  split; [reflexivity|].
  apply (@runJob_queries_logs_once_for_window
           Scenario.World Scenario.windowed
           100%float [Scenario.signed_current] (Scenario.start [])
           tt [] tt [] 1000%float []);
    reflexivity.
Defined.

(* ================================================================== *)
(** ** The message loader: [load] *)

Section LoadFacts.
Variable World : Type.
Variable deps : Deps World.

Let lib := imports deps.

(** Reading a file leaves the metrics alone. *)
Lemma readFile_metrics file s :
  metrics (snd (readFile deps file s)) = metrics s.
Proof.
  unfold readFile, await.
  destruct (String.prefix "s3://" file).
  - destruct (read (s3Service deps) file (world s)); reflexivity.
  - destruct (read (gsService deps) file (world s)); reflexivity.
Qed.

(** Decryption works on values only. *)
Lemma decryptMessage_state j s :
  snd (decryptMessage deps j s) = s.
Proof.
  unfold decryptMessage.
  destruct (MESSAGES_PASSWORD (config deps)) as [pw|]; [|reflexivity].
  destruct (String.eqb pw ""); [reflexivity|].
  unfold bind, lift, try_catch, throw. fold lib.
  destruct (encryptedMessageDTO lib j) as [checked|e]; [|reflexivity].
  destruct (decrypt lib checked pw) as [content|e]; [|reflexivity].
  destruct (JSON_parse lib (TextDecoder_decode lib content)); reflexivity.
Qed.

(** Without a password, decryption throws before looking at its input. *)
Lemma decryptMessage_without_password j s :
  password_missing (MESSAGES_PASSWORD (config deps)) = true ->
  decryptMessage deps j s = (Throw "Password was not supplied", s).
Proof.
  unfold password_missing, decryptMessage.
  destruct (MESSAGES_PASSWORD (config deps)) as [pw|]; [|reflexivity].
  intros ->. reflexivity.
Qed.

Lemma load_validate_run file j messages s :
  load_validate deps file j messages s
  = match exitOrEthDoExitDTO lib j with
    | Throw _ =>
        (Ok messages,
         skipped s (logger error_level (file ++ " failed validation:")))
    | Ok validated => (Ok (messages ++ [unwrap validated]), s)
    end.
Proof.
  unfold load_validate. fold lib.
  destruct (exitOrEthDoExitDTO lib j); reflexivity.
Qed.

(** A location whose read failed. *)
Lemma load_file_read_failed file messages s e s1 :
  readFile deps file s = (Throw e, s1) ->
  load_file deps file messages s
  = (Ok messages,
     after s1 (world s1) (metrics s1)
           [logger warn ("Unparseable read file " ++ file)]).
Proof.
  intros H. unfold load_file. unfold bind at 1. unfold attempt.
  rewrite H. reflexivity.
Qed.

(** A location that was read: the stages of the loop body, in order. *)
Lemma load_file_after_read file messages s text s1 :
  readFile deps file s = (Ok text, s1) ->
  load_file deps file messages s
  = match JSON_parse lib text with
    | Throw _ =>
        (Ok messages,
         skipped s1 (logger warn ("Unparseable JSON in file " ++ file)))
    | Ok j =>
        match js_in "crypto" j with
        | Throw e => (Throw e, s1)
        | Ok true =>
            match fst (decryptMessage deps j s1) with
            | Throw _ =>
                (Ok messages,
                 skipped s1 (logger warn
                               ("Unable to decrypt encrypted file: " ++ file)))
            | Ok j' => load_validate deps file j' messages s1
            end
        | Ok false => load_validate deps file j messages s1
        end
    end.
Proof.
  intros H. unfold load_file. unfold bind at 1. unfold attempt.
  rewrite H. fold lib.
  destruct (JSON_parse lib text) as [j|e]; [|reflexivity].
  unfold bind at 1. unfold lift.
  destruct (js_in "crypto" j) as [[|]|e]; try reflexivity.
  unfold bind at 1.
  pose proof (decryptMessage_state j s1) as Hs.
  destruct (decryptMessage deps j s1) as [[j'|e] s2]; simpl in Hs; subst s2;
    reflexivity.
Qed.

Lemma load_loop_cons file rest messages s :
  load_loop deps (file :: rest) messages s
  = match load_file deps file messages s with
    | (Ok messages', s') => load_loop deps rest messages' s'
    | (Throw e, s') => (Throw e, s')
    end.
Proof. reflexivity. Qed.

End LoadFacts.

(** A file that parses to [null], a boolean, a number or a string makes
    the whole of [load] throw: the ['crypto' in json] test is outside every
    [try] of the loop body. *)
Lemma load_loop_throws_on_primitive
      (World : Type) (deps : Deps World)
      (file : string) (rest : list string) (messages : list ExitMessage)
      (s : St World) text s1 j e :
  readFile deps file s = (Ok text, s1) ->
  JSON_parse (imports deps) text = Ok j ->
  js_in "crypto" j = Throw e ->
  load_loop deps (file :: rest) messages s = (Throw e, s1).
Proof.
  intros Hr Hp Hin. rewrite load_loop_cons.
  rewrite (load_file_after_read deps file messages s Hr), Hp, Hin.
  reflexivity.
Qed.

(** As long as no file parses to such a value, [load] returns: every other
    failure of a location is caught inside the loop body, and the messages
    already collected are kept in front of the result. *)
Lemma load_loop_returns_on_objects
      (World : Type) (deps : Deps World)
      (files : list string) (messages : list ExitMessage) (s : St World) :
  (forall text j, JSON_parse (imports deps) text = Ok j ->
                  exists b, js_in "crypto" j = Ok b) ->
  exists out s', load_loop deps files messages s = (Ok (messages ++ out), s').
Proof.
  intros Hobj. revert messages s.
  induction files as [|file rest IH]; intros messages s.
  - exists [], s. simpl. now rewrite app_nil_r.
  - rewrite load_loop_cons.
    assert (Hfile : exists out s1,
               load_file deps file messages s = (Ok (messages ++ out), s1)).
    { destruct (readFile deps file s) as [[text|e] s1] eqn:Hr.
      - rewrite (load_file_after_read deps file messages s Hr).
        destruct (JSON_parse (imports deps) text) as [j|e] eqn:Hp.
        + destruct (Hobj text j Hp) as (b & Hb). rewrite Hb.
          assert (Hv : forall j0, exists out s2,
                       load_validate deps file j0 messages s1
                       = (Ok (messages ++ out), s2)).
          { intros j0. rewrite load_validate_run.
            destruct (exitOrEthDoExitDTO (imports deps) j0) as [v|e].
            - now exists [unwrap v], s1.
            - eexists [], _. now rewrite app_nil_r. }
          destruct b; [|apply Hv].
          destruct (fst (decryptMessage deps j s1)) as [j'|e]; [apply Hv|].
          eexists [], _. now rewrite app_nil_r.
        + eexists [], _. now rewrite app_nil_r.
      - rewrite (load_file_read_failed deps file messages s Hr).
        eexists [], _. now rewrite app_nil_r. }
    destruct Hfile as (out1 & s1 & ->).
    destruct (IH (messages ++ out1) s1) as (out2 & s2 & ->).
    exists (out1 ++ out2), s2. now rewrite app_assoc.
Qed.

(** The three-location scenario of C6: invalid JSON, a valid message, a
    message without [signature].  [load] returns the one valid message and
    the invalid-message counter stands at two. *)
Example load_three_locations :
  fst (load Scenario.three_locations (Scenario.start []))
  = Ok [Scenario.signed_current]
  /\ metrics (snd (load Scenario.three_locations (Scenario.start [])))
     = {| exitMessages_valid_true := 0; exitMessages_valid_false := 2;
          exitActions_success := 0; exitActions_error := 0 |}.
Proof. split; reflexivity. Qed.

(** C6 fails on the code.  The first location holds the JSON text [null]:
    it is read and parsed, then [load] throws a TypeError out of the loop,
    and the valid message at the second location is never loaded. *)
Theorem load_throws_past_location_holding_null :
  readFile Scenario.null_location "s3://bucket/null.json" (Scenario.start [])
  = (Ok "null",
     {| world := []; metrics := no_metrics;
        trace := [s3_read "s3://bucket/null.json"] |})
  /\ JSON_parse (imports Scenario.null_location) "null" = Ok JNull
  /\ load Scenario.null_location (Scenario.start [])
     = (Throw "TypeError: Cannot use 'in' operator",
        {| world := []; metrics := no_metrics;
           trace := [s3_read "s3://bucket/null.json"] |}).
Proof. repeat split. Qed.

(** C10.  A parsed JSON object with a top-level [crypto] key is always
    handed to [decryptMessage]: the location is skipped and counted
    invalid when that throws, and otherwise it is the decrypted value, not
    the object itself, that goes on to validation.  With no
    MESSAGES_PASSWORD configured [decryptMessage] throws before the
    envelope check, so the file is skipped with the invalid-message counter
    incremented whatever else the object holds. *)
Theorem load_treats_crypto_key_as_envelope
        (World : Type) (deps : Deps World)
        (file : string) (messages : list ExitMessage) (s : St World)
        text s1 fields :
  readFile deps file s = (Ok text, s1) ->
  JSON_parse (imports deps) text = Ok (JObj fields) ->
  In "crypto" (map fst fields) ->
  load_file deps file messages s
  = match fst (decryptMessage deps (JObj fields) s1) with
    | Throw _ =>
        (Ok messages,
         skipped s1 (logger warn ("Unable to decrypt encrypted file: " ++ file)))
    | Ok j' => load_validate deps file j' messages s1
    end
  /\ (password_missing (MESSAGES_PASSWORD (config deps)) = true ->
      load_file deps file messages s
      = (Ok messages,
         skipped s1 (logger warn ("Unable to decrypt encrypted file: " ++ file)))).
Proof.
  intros Hr Hp Hin.
  assert (Hkey : js_in "crypto" (JObj fields) = Ok true).
  { simpl. f_equal. apply existsb_exists.
    apply in_map_iff in Hin. destruct Hin as (kv & Hk & Hin).
    exists kv. split; [exact Hin|]. rewrite Hk. apply String.eqb_refl. }
  rewrite (load_file_after_read deps file messages s Hr), Hp, Hkey.
  split; [reflexivity|].
  intros Hpw. now rewrite (decryptMessage_without_password deps _ _ Hpw).
Qed.

Lemma load_treats_crypto_key_as_envelope_witness :
  load_file Scenario.sealed_location "s3://bucket/sealed.json" []
            (Scenario.start [])
  = (Ok [],
     {| world := [];
        metrics := {| exitMessages_valid_true := 0; exitMessages_valid_false := 1;
                      exitActions_success := 0; exitActions_error := 0 |};
        trace := [s3_read "s3://bucket/sealed.json";
                  logger warn
                    "Unable to decrypt encrypted file: s3://bucket/sealed.json"] |}).
Proof.
  refine (proj2 (@load_treats_crypto_key_as_envelope
                   Scenario.World Scenario.sealed_location
                   "s3://bucket/sealed.json" [] (Scenario.start [])
                   "sealed"
                   {| world := []; metrics := no_metrics;
                      trace := [s3_read "s3://bucket/sealed.json"] |}
                   [("crypto", JStr "good");
                    ("message", JObj [("epoch", JStr "100");
                                      ("validator_index", JStr "1")]);
                    ("signature", JStr "0xaa040000000201")]
                   _ _ _) _).
  - reflexivity.
  - reflexivity.
  - simpl. left. reflexivity.
  - reflexivity.
Defined.

(** C3, as stated, fails: [load] skips a location whose read failed, and
    [exit] skips an already exiting validator, without any of the four
    counters being incremented. *)
Lemma skips_that_increment_no_counter :
  (fst (readFile Scenario.missing_location "s3://bucket/absent.json"
                 (Scenario.start []))
   = Throw "NoSuchKey"
   /\ fst (load Scenario.missing_location (Scenario.start [])) = Ok []
   /\ ~ increments (metrics (snd (load Scenario.missing_location
                                       (Scenario.start []))))
        = S (increments (metrics (Scenario.start []))))
  /\ (fst (exit Scenario.node [Scenario.signed_current] "0xaa"
                Scenario.once_exited)
      = Ok tt
      /\ ~ increments (metrics (snd (exit Scenario.node [Scenario.signed_current]
                                          "0xaa" Scenario.once_exited)))
           = S (increments (metrics Scenario.once_exited))).
Proof.
  repeat split; vm_compute; discriminate.
Qed.

(** C3 (amended).  Which counter each way out of the three per-item
    bodies increments.  [load]: the skip after a failed read increments
    none; after a successful read, a skipped location (unparseable JSON,
    failed decryption, failed validation) increments exactly the
    invalid-message counter, and a kept one, like a thrown error, none.
    [verify]: every message increments exactly one exit-messages counter,
    invalid when it is dropped and valid when it is kept.  [exit]: the
    skip of an already exiting validator increments none, nor does a
    failed validator-info fetch, which throws; every other way out
    increments exactly one exit-actions counter. *)
Theorem counter_of_every_way_out (World : Type) (deps : Deps World) :
  (forall file messages (s : St World),
      let (r, s') := load_file deps file messages s in
      match readFile deps file s with
      | (Throw _, _) => r = Ok messages /\ metrics s' = metrics s
      | (Ok _, _) =>
          (r = Ok messages
           /\ metrics s' = exitMessages_inc false (metrics s))
          \/ (exists m, r = Ok (messages ++ [m]) /\ metrics s' = metrics s)
          \/ (exists e, r = Throw e /\ metrics s' = metrics s)
      end)
  /\ (forall genesis state m validMessages (s : St World),
         let (r, s') := verify_message deps genesis state m validMessages s in
         (r = Ok validMessages
          /\ metrics s' = exitMessages_inc false (metrics s))
         \/ (r = Ok (validMessages ++ [m])
             /\ metrics s' = exitMessages_inc true (metrics s)))
  /\ (forall messages pubKey (s : St World),
         let (r, s') := exit deps messages pubKey s in
         match validatorInfo (consensusApi deps) pubKey (world s) with
         | (Throw e, _) => r = Throw e /\ metrics s' = metrics s
         | (Ok first, w1) =>
             if isExiting first
             then r = Ok tt /\ metrics s' = metrics s
             else
               match validatorInfo (consensusApi deps) pubKey w1 with
               | (Throw e, _) => r = Throw e /\ metrics s' = metrics s
               | (Ok _, _) =>
                   r = Ok tt
                   /\ (metrics s' = exitActions_inc success (metrics s)
                       \/ metrics s' = exitActions_inc error (metrics s))
               end
         end).
Proof.
  split; [|split].
  - intros file messages s.
    pose proof (readFile_metrics deps file s) as Hm.
    destruct (readFile deps file s) as [[text|e] s1] eqn:Hr; simpl in Hm.
    + rewrite (load_file_after_read deps file messages s Hr).
      destruct (JSON_parse (imports deps) text) as [j|e].
      * destruct (js_in "crypto" j) as [[|]|e].
        -- destruct (fst (decryptMessage deps j s1)) as [j'|e].
           ++ rewrite load_validate_run.
              destruct (exitOrEthDoExitDTO (imports deps) j') as [v|e].
              ** right. left. exists (unwrap v). split; [reflexivity|exact Hm].
              ** left. split; [reflexivity|]. simpl. now rewrite Hm.
           ++ left. split; [reflexivity|]. simpl. now rewrite Hm.
        -- rewrite load_validate_run.
           destruct (exitOrEthDoExitDTO (imports deps) j) as [v|e].
           ++ right. left. exists (unwrap v). split; [reflexivity|exact Hm].
           ++ left. split; [reflexivity|]. simpl. now rewrite Hm.
        -- right. right. exists e. split; [reflexivity|exact Hm].
      * left. split; [reflexivity|]. simpl. now rewrite Hm.
    + rewrite (load_file_read_failed deps file messages s Hr).
      split; [reflexivity|exact Hm].
  - intros genesis state m validMessages s.
    destruct (verify_message_cases deps genesis state m validMessages s)
      as (acc' & s' & Hrun & [[-> Hm]|[-> Hm]]); rewrite Hrun; auto.
  - intros messages pubKey s.
    destruct (validatorInfo (consensusApi deps) pubKey (world s))
      as [[first|e] w1] eqn:H1.
    + destruct (isExiting first) eqn:He.
      * rewrite (exit_already_exiting deps messages pubKey s H1 He).
        split; reflexivity.
      * destruct (validatorInfo (consensusApi deps) pubKey w1)
          as [[second|e] w2] eqn:H2.
        -- rewrite (exit_resolved deps messages pubKey s H1 He H2).
           destruct (find_message messages (index second)) as [m|];
             [destruct (exitRequest (consensusApi deps) m w2) as [[u|e] w3]|];
             split; auto.
        -- rewrite (exit_second_fetch_throws deps messages pubKey s H1 He H2).
           split; reflexivity.
    + rewrite (exit_first_fetch_throws deps messages pubKey s H1).
      split; reflexivity.
Qed.

(* ================================================================== *)
(** ** More on [load], [readFile] and [decryptMessage] *)

Section MoreLoadFacts.
Variable World : Type.
Variable deps : Deps World.

Lemma calls_app t1 t2 : calls (t1 ++ t2) = calls t1 ++ calls t2.
Proof. apply filter_app. Qed.

(** A read is one call to the store chosen by the prefix, and nothing
    else. *)
Lemma readFile_trace file s :
  trace (snd (readFile deps file s)) = trace s ++ [read_of file].
Proof.
  unfold readFile, read_of, await.
  destruct (String.prefix "s3://" file).
  - destruct (read (s3Service deps) file (world s)); reflexivity.
  - destruct (read (gsService deps) file (world s)); reflexivity.
Qed.

Lemma calls_read_of file : calls [read_of file] = [read_of file].
Proof. unfold read_of. destruct (String.prefix "s3://" file); reflexivity. Qed.

(** Everything one location can do to the loader's state and result. *)
Lemma load_file_step file messages s :
  location_outcome deps file messages s
    (fst (load_file deps file messages s))
    (snd (load_file deps file messages s)).
Proof.
  pose proof (readFile_metrics deps file s) as Hm.
  pose proof (readFile_trace file s) as Ht.
  assert (Hskip : forall (s1 : St World) line,
             trace s1 = trace s ++ [read_of file] -> metrics s1 = metrics s ->
             location_outcome deps file messages s
               (Ok messages) (skipped s1 (logger warn line))).
  { intros s1 line Ht1 Hm1. unfold location_outcome.
    simpl. rewrite Ht1, Hm1, !calls_app, calls_read_of. simpl. rewrite app_nil_r.
    repeat split; try reflexivity. left. split; [reflexivity|]. now right. }
  assert (Hval : forall j (s1 : St World),
             trace s1 = trace s ++ [read_of file] -> metrics s1 = metrics s ->
             location_outcome deps file messages s
               (fst (load_validate deps file j messages s1))
               (snd (load_validate deps file j messages s1))).
  { intros j s1 Ht1 Hm1. rewrite load_validate_run. unfold location_outcome.
    destruct (exitOrEthDoExitDTO (imports deps) j) as [v|e] eqn:Hv.
    - simpl. rewrite Ht1, Hm1, calls_app, calls_read_of.
      repeat split; try reflexivity. right. left. exists j, v. auto.
    - simpl. rewrite Ht1, Hm1, !calls_app, calls_read_of. simpl. rewrite app_nil_r.
      repeat split; try reflexivity. left. split; [reflexivity|]. now right. }
  destruct (readFile deps file s) as [[text|e] s1] eqn:Hr; simpl in Hm, Ht.
  - rewrite (load_file_after_read deps file messages s Hr).
    destruct (JSON_parse (imports deps) text) as [j|e]; [|now apply Hskip].
    destruct (js_in "crypto" j) as [[|]|e].
    + destruct (fst (decryptMessage deps j s1)) as [j'|e];
        [now apply Hval | now apply Hskip].
    + now apply Hval.
    + unfold location_outcome. simpl. rewrite Ht, Hm, calls_app, calls_read_of.
      repeat split; try reflexivity. right. right. exists e. auto.
  - rewrite (load_file_read_failed deps file messages s Hr).
    unfold location_outcome.
    simpl. rewrite Ht, Hm, !calls_app, calls_read_of. simpl. rewrite app_nil_r.
    repeat split; try reflexivity. left. split; [reflexivity|]. now left.
Qed.

(** The loop over the locations, summed up: the stores are read in the
    order of the locations, once each, up to the location at which an error
    escapes; only the invalid-message counter moves; and what is added to
    the list has passed the schema check. *)
Lemma load_loop_facts files messages s :
  exists n added,
    n <= length files
    /\ calls (trace (snd (load_loop deps files messages s)))
       = calls (trace s) ++ map read_of (firstn n files)
    /\ exitMessages_valid_true (metrics (snd (load_loop deps files messages s)))
       = exitMessages_valid_true (metrics s)
    /\ exitActions_success (metrics (snd (load_loop deps files messages s)))
       = exitActions_success (metrics s)
    /\ exitActions_error (metrics (snd (load_loop deps files messages s)))
       = exitActions_error (metrics s)
    /\ exitMessages_valid_false (metrics s)
       <= exitMessages_valid_false (metrics (snd (load_loop deps files messages s)))
    /\ (forall m, In m added ->
                  exists j validated,
                    exitOrEthDoExitDTO (imports deps) j = Ok validated
                    /\ m = unwrap validated)
    /\ exitMessages_valid_false (metrics (snd (load_loop deps files messages s)))
       + length added
       <= exitMessages_valid_false (metrics s) + n
    /\ match fst (load_loop deps files messages s) with
       | Ok out => n = length files /\ out = messages ++ added
       | Throw _ => True
       end.
Proof.
  revert messages s. induction files as [|file rest IH]; intros messages s.
  - exists 0, []. simpl. rewrite !app_nil_r.
    repeat split; try reflexivity; try lia; try (now intros ? []).
  - rewrite load_loop_cons.
    destruct (load_file_step file messages s)
      as (Hc & Ht & Hs & He & Hcase).
    destruct (load_file deps file messages s) as [[messages'|e] s1];
      simpl in Hc, Ht, Hs, He, Hcase.
    + destruct (IH messages' s1)
        as (n & added & Hn & Hc' & Ht' & Hs' & He' & Hf' & Hval & Hcount & Hr).
      destruct Hcase as [(Hm & Hf)|[(j & v & Hv & Hm & Hf)|(e & Hm & _)]];
        [| |discriminate].
      * injection Hm as ->.
        exists (S n), added. simpl. rewrite Hc', Hc, <- app_assoc.
        repeat split; try congruence; try lia; try exact Hval.
        destruct (fst (load_loop deps rest messages s1)); [|exact I].
        destruct Hr as (-> & ->). split; reflexivity.
      * injection Hm as ->.
        exists (S n), (unwrap v :: added). simpl. rewrite Hc', Hc, <- app_assoc.
        repeat split; try congruence; try lia.
        -- intros m [<-|Hin]; [exists j, v; auto | now apply Hval].
        -- destruct (fst (load_loop deps rest (messages ++ [unwrap v]) s1));
             [|exact I].
           destruct Hr as (-> & ->). rewrite <- app_assoc. split; reflexivity.
    + exists 1, []. simpl. rewrite Hc.
      destruct Hcase as [(Hm & _)|[(j & v & _ & Hm & _)|(e' & _ & Hf)]];
        try discriminate.
      repeat split; try assumption; try lia; try (now intros ? []).
Qed.

End MoreLoadFacts.

(** X1.  [load] reads every configured location exactly once, in the order
    of the configuration, from the S3 store when the location starts with
    [s3://] and from the GS store otherwise, and makes no other remote call.
    When an error escapes, the reads made are those of the locations up to
    the one that threw. *)
Theorem load_reads_locations_once_in_order
        (World : Type) (deps : Deps World) (s : St World) :
  match fst (load deps s) with
  | Ok _ =>
      calls (trace (snd (load deps s)))
      = calls (trace s) ++ map read_of (MESSAGES_LOCATIONS (config deps))
  | Throw _ =>
      exists n,
        n <= length (MESSAGES_LOCATIONS (config deps))
        /\ calls (trace (snd (load deps s)))
           = calls (trace s)
             ++ map read_of (firstn n (MESSAGES_LOCATIONS (config deps)))
  end.
Proof.
  unfold load.
  destruct (load_loop_facts deps (MESSAGES_LOCATIONS (config deps)) [] s)
    as (n & added & Hn & Hc & _ & _ & _ & _ & _ & _ & Hr).
  destruct (fst (load_loop deps (MESSAGES_LOCATIONS (config deps)) [] s)).
  - destruct Hr as (-> & _). now rewrite firstn_all in Hc.
  - exists n. split; assumption.
Qed.

(** X2.  Every message that [load] returns is the unwrapped result of the
    exit-message schema check on some JSON value: nothing enters the list
    without having passed [exitOrEthDoExitDTO]. *)
Theorem load_returns_only_validated_messages
        (World : Type) (deps : Deps World) (s : St World)
        (out : list ExitMessage) :
  fst (load deps s) = Ok out ->
  forall m, In m out ->
            exists j validated,
              exitOrEthDoExitDTO (imports deps) j = Ok validated
              /\ m = unwrap validated.
Proof.
  unfold load. intros Hout.
  destruct (load_loop_facts deps (MESSAGES_LOCATIONS (config deps)) [] s)
    as (n & added & _ & _ & _ & _ & _ & _ & Hval & _ & Hr).
  rewrite Hout in Hr. destruct Hr as (_ & ->). exact Hval.
Qed.

Lemma load_returns_only_validated_messages_witness :
  exists j validated,
    exitOrEthDoExitDTO (imports Scenario.three_locations) j = Ok validated
    /\ Scenario.signed_current = unwrap validated.
Proof.
  apply (@load_returns_only_validated_messages
           Scenario.World Scenario.three_locations (Scenario.start [])
           [Scenario.signed_current]).
  - reflexivity.
  - left. reflexivity.
Defined.

(** X3.  [load] moves no counter but the invalid-message one, which never
    goes down; when it returns, the messages it kept and the invalid
    messages it counted are together no more than the locations. *)
Theorem load_counts_at_most_one_invalid_per_location
        (World : Type) (deps : Deps World) (s : St World) :
  exitMessages_valid_true (metrics (snd (load deps s)))
  = exitMessages_valid_true (metrics s)
  /\ exitActions_success (metrics (snd (load deps s)))
     = exitActions_success (metrics s)
  /\ exitActions_error (metrics (snd (load deps s)))
     = exitActions_error (metrics s)
  /\ exitMessages_valid_false (metrics s)
     <= exitMessages_valid_false (metrics (snd (load deps s)))
  /\ match fst (load deps s) with
     | Ok out =>
         exitMessages_valid_false (metrics (snd (load deps s))) + length out
         <= exitMessages_valid_false (metrics s)
            + length (MESSAGES_LOCATIONS (config deps))
     | Throw _ => True
     end.
Proof.
  unfold load.
  destruct (load_loop_facts deps (MESSAGES_LOCATIONS (config deps)) [] s)
    as (n & added & Hn & _ & Ht & Hs & He & Hf & _ & Hcount & Hr).
  repeat split; try assumption.
  destruct (fst (load_loop deps (MESSAGES_LOCATIONS (config deps)) [] s));
    [|exact I].
  destruct Hr as (-> & ->). simpl. lia.
Qed.

(** X4.  [decryptMessage] touches neither the world, the metrics nor the
    trace.  It returns a value exactly when a non-empty password is
    configured, the input passes the envelope check, the keystore decrypts
    under that password and the decoded plaintext parses; and when the
    plaintext does not parse, the error thrown is the fixed
    'Unparseable JSON after decryption', not the parser's. *)
Theorem decryptMessage_outcome
        (World : Type) (deps : Deps World) (input : json) (s : St World) :
  snd (decryptMessage deps input s) = s
  /\ (forall j,
         fst (decryptMessage deps input s) = Ok j
         <-> exists pw checked content,
             MESSAGES_PASSWORD (config deps) = Some pw
             /\ pw <> ""
             /\ encryptedMessageDTO (imports deps) input = Ok checked
             /\ decrypt (imports deps) checked pw = Ok content
             /\ JSON_parse (imports deps)
                           (TextDecoder_decode (imports deps) content) = Ok j)
  /\ (forall pw checked content e,
         MESSAGES_PASSWORD (config deps) = Some pw ->
         pw <> "" ->
         encryptedMessageDTO (imports deps) input = Ok checked ->
         decrypt (imports deps) checked pw = Ok content ->
         JSON_parse (imports deps)
                    (TextDecoder_decode (imports deps) content) = Throw e ->
         fst (decryptMessage deps input s)
         = Throw "Unparseable JSON after decryption").
Proof.
  split; [apply decryptMessage_state|]. split.
  - intros j. unfold decryptMessage. split.
    + destruct (MESSAGES_PASSWORD (config deps)) as [pw|]; [|discriminate].
      destruct (String.eqb_spec pw "") as [->|Hne]; [discriminate|].
      unfold bind, lift, try_catch, throw.
      destruct (encryptedMessageDTO (imports deps) input) as [checked|e] eqn:Hd;
        [|discriminate].
      destruct (decrypt (imports deps) checked pw) as [content|e] eqn:Hk;
        [|discriminate].
      destruct (JSON_parse (imports deps)
                  (TextDecoder_decode (imports deps) content)) as [j'|e] eqn:Hp;
        [|discriminate].
      simpl. intros [= ->]. exists pw, checked, content. auto.
    + intros (pw & checked & content & -> & Hne & Hd & Hk & Hp).
      apply String.eqb_neq in Hne. rewrite Hne.
      unfold bind, lift, try_catch. rewrite Hd, Hk, Hp. reflexivity.
  - unfold decryptMessage. intros pw checked content e -> Hne Hd Hk Hp.
    apply String.eqb_neq in Hne. rewrite Hne.
    unfold bind, lift, try_catch, throw. rewrite Hd, Hk, Hp. reflexivity.
Qed.

(* ================================================================== *)
(** ** More on [verify] *)

Section MoreVerifyFacts.
Variable World : Type.
Variable deps : Deps World.

Let api := consensusApi deps.

Lemma calls_fork_checks genesis state info m :
  calls (fork_checks deps genesis state info m) = [].
Proof.
  unfold fork_checks.
  destruct (signed_under deps genesis info m (current_version state));
    reflexivity.
Qed.

(** One message, whatever becomes of it: the answer of the node decides,
    and the one remote call made is the validator-info fetch. *)
Lemma verify_message_step genesis state m acc s :
  exists acc' s',
    verify_message deps genesis state m acc s = (Ok acc', s')
    /\ calls (trace s') = calls (trace s) ++ [info_fetch_of m]
    /\ world s' = snd (validatorInfo api (validator_index (message m)) (world s))
    /\ acc' = (if accepted deps genesis state (world s) m
               then acc ++ [m] else acc)
    /\ metrics s' = exitMessages_inc (accepted deps genesis state (world s) m)
                                     (metrics s).
Proof.
  unfold accepted. fold api.
  destruct (validatorInfo api (validator_index (message m)) (world s))
    as [[info|e] w] eqn:Hi; simpl.
  - destruct (isExiting info) eqn:He; simpl.
    + rewrite (verify_message_isExiting deps genesis state m acc s Hi He).
      eexists _, _. split; [reflexivity|]. simpl. rewrite calls_app.
      repeat split; reflexivity.
    + destruct (signed_under deps genesis info m (current_version state)) eqn:Hc;
        simpl.
      * rewrite (verify_message_signed deps genesis state m acc s Hi He
                   (or_introl Hc)).
        eexists _, _. split; [reflexivity|]. simpl.
        rewrite calls_app. simpl. rewrite calls_fork_checks.
        repeat split; reflexivity.
      * destruct (signed_under deps genesis info m (previous_version state)) eqn:Hp.
        -- rewrite (verify_message_signed deps genesis state m acc s Hi He
                      (or_intror Hp)).
           eexists _, _. split; [reflexivity|]. simpl.
           rewrite calls_app. simpl. rewrite calls_fork_checks.
           repeat split; reflexivity.
        -- rewrite (verify_message_unsigned deps genesis state m acc s Hi He Hc Hp).
           eexists _, _. split; [reflexivity|]. simpl.
           rewrite calls_app. simpl. rewrite calls_app, calls_fork_checks.
           repeat split; reflexivity.
  - rewrite (verify_message_fetch_failed deps genesis state m acc s Hi).
    eexists _, _. split; [reflexivity|]. simpl. rewrite calls_app.
    repeat split; reflexivity.
Qed.

(** The calls of the loop: one validator-info fetch per message, in
    order. *)
Lemma verify_loop_calls genesis state messages acc s :
  calls (trace (snd (verify_loop deps genesis state messages acc s)))
  = calls (trace s) ++ map info_fetch_of messages.
Proof.
  revert acc s. induction messages as [|m rest IH]; intros acc s; simpl.
  - now rewrite app_nil_r.
  - unfold bind.
    destruct (verify_message_step genesis state m acc s)
      as (acc' & s1 & -> & Hc & _).
    rewrite IH, Hc, <- app_assoc. reflexivity.
Qed.

(** Every message the loop adds was, at its turn, the message of a
    validator the node reported as not exiting, signed under the current
    or the previous fork. *)
Lemma verify_loop_kept genesis state messages acc s out s' :
  verify_loop deps genesis state messages acc s = (Ok out, s') ->
  forall m, In m out ->
    In m acc
    \/ exists pre post acc1 s1,
        messages = pre ++ m :: post
        /\ verify_loop deps genesis state pre acc s = (Ok acc1, s1)
        /\ accepted deps genesis state (world s1) m = true.
Proof.
  revert acc s. induction messages as [|m0 rest IH]; intros acc s Hrun m Hin.
  - simpl in Hrun. injection Hrun as <- _. now left.
  - simpl in Hrun. unfold bind in Hrun.
    destruct (verify_message_step genesis state m0 acc s)
      as (acc' & s1 & Hstep & _ & _ & Hacc & _).
    rewrite Hstep in Hrun.
    destruct (IH acc' s1 Hrun m Hin)
      as [Hin'|(pre & post & acc1 & s2 & -> & Hpre & Hok)].
    + destruct (accepted deps genesis state (world s) m0) eqn:Hok; subst acc'.
      * apply in_app_or in Hin'. destruct Hin' as [Hin'|[<-|[]]]; [now left|].
        right. exists [], rest, acc, s. repeat split; assumption.
      * now left.
    + right. exists (m0 :: pre), post, acc1, s2. repeat split; try assumption.
      simpl. unfold bind. now rewrite Hstep.
Qed.

(** On a node that only answers, the loop is a filter. *)
Lemma verify_loop_filter genesis state messages acc s :
  read_only_node deps ->
  exists s',
    verify_loop deps genesis state messages acc s
    = (Ok (acc ++ filter (accepted deps genesis state (world s)) messages), s')
    /\ world s' = world s
    /\ exitMessages_valid_true (metrics s')
       = exitMessages_valid_true (metrics s)
         + length (filter (accepted deps genesis state (world s)) messages)
    /\ exitMessages_valid_false (metrics s')
         + length (filter (accepted deps genesis state (world s)) messages)
       = exitMessages_valid_false (metrics s) + length messages.
Proof.
  intros (_ & _ & Hro). revert acc s.
  induction messages as [|m rest IH]; intros acc s; simpl.
  - exists s. rewrite app_nil_r. repeat split; lia.
  - unfold bind.
    destruct (verify_message_step genesis state m acc s)
      as (acc' & s1 & -> & _ & Hw & -> & Hm).
    fold api in Hw. unfold api in Hw. rewrite Hro in Hw.
    destruct (IH (if accepted deps genesis state (world s) m
                  then acc ++ [m] else acc) s1) as (s' & -> & Hw' & Ht & Hf).
    rewrite Hw in *. exists s'. rewrite Hm in Ht, Hf.
    destruct (accepted deps genesis state (world s) m); simpl in *.
    + rewrite <- app_assoc. repeat split; try assumption; lia.
    + repeat split; try assumption; lia.
Qed.

End MoreVerifyFacts.

Lemma filter_twice {A} (p : A -> bool) (l : list A) :
  filter p (filter p l) = filter p l.
Proof.
  induction l as [|x l IH]; simpl; [reflexivity|].
  destruct (p x) eqn:Hp; simpl; [rewrite Hp|]; now rewrite IH.
Qed.

Lemma accepted_true (World : Type) (deps : Deps World) genesis state w m :
  accepted deps genesis state w m = true ->
  exists info w',
    validatorInfo (consensusApi deps) (validator_index (message m)) w
    = (Ok info, w')
    /\ isExiting info = false
    /\ (signed_under deps genesis info m (current_version state) = true
        \/ signed_under deps genesis info m (previous_version state) = true).
Proof.
  unfold accepted.
  destruct (validatorInfo (consensusApi deps) (validator_index (message m)) w)
    as [[info|e] w']; simpl; [|discriminate].
  intros H. apply andb_prop in H. destruct H as (He & Hs).
  exists info, w'. split; [reflexivity|]. split.
  - now apply negb_true_iff.
  - now apply orb_prop.
Qed.

(** The deployment of the scenarios has a node that only answers. *)
Lemma scenario_node_read_only : read_only_node Scenario.node.
Proof.
  repeat split. intros id w. simpl. unfold Scenario.validatorInfo.
  destruct (find _ Scenario.registry); reflexivity.
Qed.

(** X5.  The remote calls of [verify] are the genesis fetch, the state
    fetch and then one validator-info fetch per message, by the message's
    [validator_index] and in the order of the messages; when a shared
    fetch throws, the calls stop there.  [verify] submits nothing and leaves
    the exit-action counters alone. *)
Theorem verify_fetches_validator_info_once_per_message
        (World : Type) (deps : Deps World)
        (messages : list ExitMessage) (s : St World) :
  match fst (verify deps messages s) with
  | Ok _ =>
      calls (trace (snd (verify deps messages s)))
      = calls (trace s)
        ++ consensus_genesis :: consensus_state :: map info_fetch_of messages
  | Throw _ =>
      calls (trace (snd (verify deps messages s)))
      = calls (trace s) ++ [consensus_genesis]
      \/ calls (trace (snd (verify deps messages s)))
         = calls (trace s) ++ [consensus_genesis; consensus_state]
  end
  /\ exitActions_success (metrics (snd (verify deps messages s)))
     = exitActions_success (metrics s)
  /\ exitActions_error (metrics (snd (verify deps messages s)))
     = exitActions_error (metrics s).
Proof.
  destruct (genesis (consensusApi deps) (world s)) as [[g|e] w1] eqn:Hg.
  - destruct (state (consensusApi deps) w1) as [[st|e] w2] eqn:Hst.
    + rewrite (verify_after_fetches deps messages s Hg Hst).
      pose proof (verify_loop_calls deps g st messages []
                    (after s w2 (metrics s) [consensus_genesis; consensus_state]))
        as Hc.
      destruct (verify_loop_outcome deps g st messages []
                  (after s w2 (metrics s) [consensus_genesis; consensus_state]))
        as (out & s' & Hrun & _ & _ & _ & Hs & He).
      rewrite Hrun in *. simpl in *. rewrite Hc, calls_app, <- app_assoc.
      repeat split; assumption.
    + unfold verify, bind, await. rewrite Hg. simpl. rewrite Hst. simpl.
      rewrite <- app_assoc, calls_app. repeat split. now right.
    - unfold verify, bind, await. rewrite Hg. simpl. rewrite calls_app.
      repeat split. now left.
Qed.

(** X6.  Every message that [verify] returns had its turn in the loop at
    a moment when the node answered for its validator, reported it as not
    exiting, and its signature verified under the current or the previous
    fork version. *)
Theorem verify_returns_only_checked_messages
        (World : Type) (deps : Deps World)
        (messages : list ExitMessage) (s : St World) g w1 st w2 out s' :
  genesis (consensusApi deps) (world s) = (Ok g, w1) ->
  state (consensusApi deps) w1 = (Ok st, w2) ->
  verify deps messages s = (Ok out, s') ->
  forall m, In m out ->
    exists pre post acc1 s1 info w,
      messages = pre ++ m :: post
      /\ verify_loop deps g st pre []
           (after s w2 (metrics s) [consensus_genesis; consensus_state])
         = (Ok acc1, s1)
      /\ validatorInfo (consensusApi deps) (validator_index (message m)) (world s1)
         = (Ok info, w)
      /\ isExiting info = false
      /\ (signed_under deps g info m (current_version st) = true
          \/ signed_under deps g info m (previous_version st) = true).
Proof.
  intros Hg Hst Hrun m Hin.
  rewrite (verify_after_fetches deps messages s Hg Hst) in Hrun.
  destruct (verify_loop_kept deps g st messages [] _ Hrun m Hin)
    as [[]|(pre & post & acc1 & s1 & Hsplit & Hpre & Hok)].
  destruct (accepted_true deps g st (world s1) m Hok) as (info & w & Hi & He & Hs).
  exists pre, post, acc1, s1, info, w. auto.
Qed.

Lemma verify_returns_only_checked_messages_witness :
  exists pre post acc1 s1 info w,
    [Scenario.signed_badly; Scenario.signed_previous]
    = pre ++ Scenario.signed_previous :: post
    /\ verify_loop Scenario.node
         {| genesis_validators_root := "0x01" |}
         {| previous_version := "0x03"; current_version := "0x02" |}
         pre []
         (after (Scenario.start []) [] (metrics (Scenario.start []))
                [consensus_genesis; consensus_state])
       = (Ok acc1, s1)
    /\ validatorInfo (consensusApi Scenario.node)
                     (validator_index (message Scenario.signed_previous))
                     (world s1)
       = (Ok info, w)
    /\ isExiting info = false
    /\ (signed_under Scenario.node {| genesis_validators_root := "0x01" |} info
                     Scenario.signed_previous "0x02" = true
        \/ signed_under Scenario.node {| genesis_validators_root := "0x01" |} info
                        Scenario.signed_previous "0x03" = true).
Proof.
  apply (@verify_returns_only_checked_messages
           Scenario.World Scenario.node
           [Scenario.signed_badly; Scenario.signed_previous] (Scenario.start [])
           {| genesis_validators_root := "0x01" |} []
           {| previous_version := "0x03"; current_version := "0x02" |} []
           [Scenario.signed_previous]
           (snd (verify Scenario.node
                        [Scenario.signed_badly; Scenario.signed_previous]
                        (Scenario.start [])))).
  - reflexivity.
  - reflexivity.
  - reflexivity.
  - left. reflexivity.
Defined.

(** X7.  A message of a validator that is not exiting whose signature
    verifies under neither fork version is left out of the returned list
    and counted invalid exactly once; both forks were tried for it, the
    current one first, and an error line names the validator. *)
Theorem verify_drops_message_signed_under_neither_fork
        (World : Type) (deps : Deps World)
        (pre : list ExitMessage) (m : ExitMessage) (post : list ExitMessage)
        (s : St World) g w1 st w2 acc s3 info w4 :
  genesis (consensusApi deps) (world s) = (Ok g, w1) ->
  state (consensusApi deps) w1 = (Ok st, w2) ->
  verify_loop deps g st pre []
    (after s w2 (metrics s) [consensus_genesis; consensus_state]) = (Ok acc, s3) ->
  validatorInfo (consensusApi deps) (validator_index (message m)) (world s3)
  = (Ok info, w4) ->
  isExiting info = false ->
  signed_under deps g info m (current_version st) = false ->
  signed_under deps g info m (previous_version st) = false ->
  verify deps (pre ++ m :: post) s
  = verify_loop deps g st post acc
      (after s3 w4 (exitMessages_inc false (metrics s3))
             [consensus_validatorInfo (validator_index (message m));
              verifyFork_logged deps false m (current_version st);
              verifyFork_logged deps false m (previous_version st);
              logger error_level
                ("Invalid signature for validator "
                 ++ validator_index (message m))]).
Proof.
  intros Hg Hst Hpre Hi He Hc Hp.
  rewrite (verify_after_fetches deps (pre ++ m :: post) s Hg Hst).
  rewrite verify_loop_app, Hpre. simpl. unfold bind.
  rewrite (verify_message_unsigned deps g st m acc s3 Hi He Hc Hp).
  unfold fork_checks. rewrite Hc, Hp. reflexivity.
Qed.

Lemma verify_drops_message_signed_under_neither_fork_witness :
  verify Scenario.node ([] ++ Scenario.signed_badly :: []) (Scenario.start [])
  = verify_loop Scenario.node
      {| genesis_validators_root := "0x01" |}
      {| previous_version := "0x03"; current_version := "0x02" |}
      [] []
      (after (after (Scenario.start []) [] no_metrics
                    [consensus_genesis; consensus_state])
             [] (exitMessages_inc false no_metrics)
             [consensus_validatorInfo "1";
              logger debug "Singature invalid for validator 1 for fork 0x02";
              logger debug "Singature invalid for validator 1 for fork 0x03";
              logger error_level "Invalid signature for validator 1"]).
Proof.
  apply (@verify_drops_message_signed_under_neither_fork
           Scenario.World Scenario.node [] Scenario.signed_badly []
           (Scenario.start [])
           {| genesis_validators_root := "0x01" |} []
           {| previous_version := "0x03"; current_version := "0x02" |} []
           []
           (after (Scenario.start []) [] no_metrics
                  [consensus_genesis; consensus_state])
           {| index := "1"; pubKey := "0xaa"; isExiting := false |} []);
    reflexivity.
Defined.

(** X8.  A message whose validator-info fetch throws is left out of the
    returned list and counted invalid exactly once, with an error line;
    the pass goes on with the messages after it. *)
Theorem verify_skips_message_whose_info_fetch_failed
        (World : Type) (deps : Deps World)
        (pre : list ExitMessage) (m : ExitMessage) (post : list ExitMessage)
        (s : St World) g w1 st w2 acc s3 e w4 :
  genesis (consensusApi deps) (world s) = (Ok g, w1) ->
  state (consensusApi deps) w1 = (Ok st, w2) ->
  verify_loop deps g st pre []
    (after s w2 (metrics s) [consensus_genesis; consensus_state]) = (Ok acc, s3) ->
  validatorInfo (consensusApi deps) (validator_index (message m)) (world s3)
  = (Throw e, w4) ->
  verify deps (pre ++ m :: post) s
  = verify_loop deps g st post acc
      (after s3 w4 (exitMessages_inc false (metrics s3))
             [consensus_validatorInfo (validator_index (message m));
              logger error_level
                ("Failed to get validator info for index "
                 ++ validator_index (message m))]).
Proof.
  intros Hg Hst Hpre Hi.
  rewrite (verify_after_fetches deps (pre ++ m :: post) s Hg Hst).
  rewrite verify_loop_app, Hpre. simpl. unfold bind.
  now rewrite (verify_message_fetch_failed deps g st m acc s3 Hi).
Qed.

Lemma verify_skips_message_whose_info_fetch_failed_witness :
  verify Scenario.node
         ([] ++ Scenario.unknown_validator :: [Scenario.signed_current])
         (Scenario.start [])
  = verify_loop Scenario.node
      {| genesis_validators_root := "0x01" |}
      {| previous_version := "0x03"; current_version := "0x02" |}
      [Scenario.signed_current] []
      (after (after (Scenario.start []) [] no_metrics
                    [consensus_genesis; consensus_state])
             [] (exitMessages_inc false no_metrics)
             [consensus_validatorInfo "9";
              logger error_level "Failed to get validator info for index 9"]).
Proof.
  apply (@verify_skips_message_whose_info_fetch_failed
           Scenario.World Scenario.node [] Scenario.unknown_validator
           [Scenario.signed_current] (Scenario.start [])
           {| genesis_validators_root := "0x01" |} []
           {| previous_version := "0x03"; current_version := "0x02" |} []
           []
           (after (Scenario.start []) [] no_metrics
                  [consensus_genesis; consensus_state])
           "404" []);
    reflexivity.
Defined.

(** [verify] against a node that only answers. *)
Lemma verify_on_read_only_node
      (World : Type) (deps : Deps World)
      (messages : list ExitMessage) (s : St World) g w1 st w2 :
  read_only_node deps ->
  genesis (consensusApi deps) (world s) = (Ok g, w1) ->
  state (consensusApi deps) w1 = (Ok st, w2) ->
  fst (verify deps messages s)
  = Ok (filter (accepted deps g st (world s)) messages)
  /\ world (snd (verify deps messages s)) = world s
  /\ exitMessages_valid_true (metrics (snd (verify deps messages s)))
     = exitMessages_valid_true (metrics s)
       + length (filter (accepted deps g st (world s)) messages)
  /\ exitMessages_valid_false (metrics (snd (verify deps messages s)))
       + length (filter (accepted deps g st (world s)) messages)
     = exitMessages_valid_false (metrics s) + length messages.
Proof.
  intros Hro Hg Hst.
  assert (Hw1 : w1 = world s).
  { destruct Hro as (H & _). specialize (H (world s)). now rewrite Hg in H. }
  assert (Hw2 : w2 = world s).
  { destruct Hro as (_ & H & _). specialize (H w1). rewrite Hst in H.
    simpl in H. congruence. }
  rewrite (verify_after_fetches deps messages s Hg Hst).
  destruct (@verify_loop_filter _ deps g st messages []
              (after s w2 (metrics s) [consensus_genesis; consensus_state]) Hro)
    as (s' & -> & Hw & Ht & Hf).
  simpl in *. subst w1 w2. repeat split; assumption.
Qed.

(** X9.  Against a node whose genesis, state and validator-info calls only
    answer, [verify] is a filter: it returns, in their order, exactly the
    messages whose validator the node reports as known and not exiting and
    whose signature verifies under the current or the previous fork; it
    counts those valid and all the others invalid. *)
Theorem verify_is_a_filter_on_a_read_only_node
        (World : Type) (deps : Deps World)
        (messages : list ExitMessage) (s : St World) g w1 st w2 :
  read_only_node deps ->
  genesis (consensusApi deps) (world s) = (Ok g, w1) ->
  state (consensusApi deps) w1 = (Ok st, w2) ->
  fst (verify deps messages s)
  = Ok (filter (accepted deps g st (world s)) messages)
  /\ world (snd (verify deps messages s)) = world s
  /\ exitMessages_valid_true (metrics (snd (verify deps messages s)))
     = exitMessages_valid_true (metrics s)
       + length (filter (accepted deps g st (world s)) messages)
  /\ exitMessages_valid_false (metrics (snd (verify deps messages s)))
       + length (filter (accepted deps g st (world s)) messages)
     = exitMessages_valid_false (metrics s) + length messages.
Proof. apply verify_on_read_only_node. Qed.

Lemma verify_is_a_filter_on_a_read_only_node_witness :
  fst (verify Scenario.node
              [Scenario.signed_badly; Scenario.signed_current;
               Scenario.unknown_validator; Scenario.signed_previous]
              (Scenario.start []))
  = Ok [Scenario.signed_current; Scenario.signed_previous].
Proof.
  apply (@verify_is_a_filter_on_a_read_only_node
           Scenario.World Scenario.node
           [Scenario.signed_badly; Scenario.signed_current;
            Scenario.unknown_validator; Scenario.signed_previous]
           (Scenario.start [])
           {| genesis_validators_root := "0x01" |} []
           {| previous_version := "0x03"; current_version := "0x02" |} []).
  - exact scenario_node_read_only.
  - reflexivity.
  - reflexivity.
Defined.

(** X10.  Against such a node, verifying again what [verify] returned
    returns the same list: re-verification drops nothing more. *)
Theorem verify_again_returns_the_same_messages
        (World : Type) (deps : Deps World)
        (messages : list ExitMessage) (s : St World) g w1 st w2 :
  read_only_node deps ->
  genesis (consensusApi deps) (world s) = (Ok g, w1) ->
  state (consensusApi deps) w1 = (Ok st, w2) ->
  forall out s',
    verify deps messages s = (Ok out, s') ->
    fst (verify deps out s') = Ok out.
Proof.
  intros Hro Hg Hst out s' Hrun.
  assert (Hw1 : w1 = world s).
  { destruct Hro as (H & _). specialize (H (world s)). now rewrite Hg in H. }
  subst w1.
  destruct (verify_on_read_only_node messages s Hro Hg Hst)
    as (Hout & Hw & _).
  rewrite Hrun in Hout, Hw. simpl in Hout, Hw. injection Hout as ->.
  rewrite <- Hw in Hg, Hst.
  destruct (verify_on_read_only_node
              (filter (accepted deps g st (world s)) messages) s' Hro Hg Hst)
    as (Hagain & _).
  rewrite Hagain, Hw. now rewrite filter_twice.
Qed.

Lemma verify_again_returns_the_same_messages_witness :
  fst (verify Scenario.node [Scenario.signed_current]
         (snd (verify Scenario.node
                      [Scenario.signed_badly; Scenario.signed_current]
                      (Scenario.start []))))
  = Ok [Scenario.signed_current].
Proof.
  apply (@verify_again_returns_the_same_messages
           Scenario.World Scenario.node
           [Scenario.signed_badly; Scenario.signed_current] (Scenario.start [])
           {| genesis_validators_root := "0x01" |} []
           {| previous_version := "0x03"; current_version := "0x02" |} []).
  - exact scenario_node_read_only.
  - reflexivity.
  - reflexivity.
  - reflexivity.
Defined.

(* ================================================================== *)
(** ** More on [exit] and [runJob] *)

Section MoreExitFacts.
Variable World : Type.
Variable deps : Deps World.

Let api := consensusApi deps.

Lemma exitRequest_calls_app t1 t2 :
  exitRequest_calls (t1 ++ t2) = exitRequest_calls t1 ++ exitRequest_calls t2.
Proof. apply flat_map_app. Qed.

Lemma find_message_some messages validatorIndex m :
  find_message messages validatorIndex = Some m <->
  exists pre post,
    messages = pre ++ m :: post
    /\ validator_index (message m) = validatorIndex
    /\ forall m', In m' pre -> validator_index (message m') <> validatorIndex.
Proof.
  unfold find_message. induction messages as [|m0 rest IH]; simpl.
  - split; [discriminate|]. intros (pre & post & H & _).
    destruct pre; discriminate.
  - destruct (String.eqb_spec (validator_index (message m0)) validatorIndex)
      as [Heq|Hne].
    + split.
      * intros [= <-]. exists [], rest. repeat split; auto; try (now intros ? []).
      * intros (pre & post & Hsplit & Hidx & Hpre).
        destruct pre as [|p pre]; simpl in Hsplit; injection Hsplit as Hm Hrest.
        -- now subst.
        -- exfalso. subst p. apply (Hpre m0); [now left | exact Heq].
    + rewrite IH. split.
      * intros (pre & post & -> & Hidx & Hpre).
        exists (m0 :: pre), post. repeat split; auto.
        intros m' [<-|Hin]; [exact Hne | now apply Hpre].
      * intros (pre & post & Hsplit & Hidx & Hpre).
        destruct pre as [|p pre]; simpl in Hsplit; injection Hsplit as Hm Hrest.
        -- subst m0. contradiction.
        -- subst p rest. exists pre, post. repeat split; auto.
           intros m' Hin. apply Hpre. now right.
Qed.

(** What a call of [exit] may do, whatever the node answers. *)
Lemma exit_facts messages pubKey s :
  exists submitted,
    exitRequest_calls (trace (snd (exit deps messages pubKey s)))
    = exitRequest_calls (trace s) ++ submitted
    /\ length submitted <= 1
    /\ (forall m, In m submitted -> In m messages)
    /\ exitMessages_valid_true (metrics (snd (exit deps messages pubKey s)))
       = exitMessages_valid_true (metrics s)
    /\ exitMessages_valid_false (metrics (snd (exit deps messages pubKey s)))
       = exitMessages_valid_false (metrics s)
    /\ exitActions_success (metrics s)
       <= exitActions_success (metrics (snd (exit deps messages pubKey s)))
    /\ exitActions_error (metrics s)
       <= exitActions_error (metrics (snd (exit deps messages pubKey s)))
    /\ exitActions_success (metrics (snd (exit deps messages pubKey s)))
       <= exitActions_success (metrics s) + length submitted
    /\ exitActions_success (metrics (snd (exit deps messages pubKey s)))
       + exitActions_error (metrics (snd (exit deps messages pubKey s)))
       <= exitActions_success (metrics s) + exitActions_error (metrics s) + 1.
Proof.
  destruct (validatorInfo api pubKey (world s)) as [[first|e] w1] eqn:H1.
  - destruct (isExiting first) eqn:He.
    + rewrite (exit_already_exiting deps messages pubKey s H1 He).
      exists []. simpl. rewrite exitRequest_calls_app. simpl.
      repeat split; try lia; try (now intros ? []).
    + destruct (validatorInfo api pubKey w1) as [[second|e] w2] eqn:H2.
      * rewrite (exit_resolved deps messages pubKey s H1 He H2).
        destruct (find_message messages (index second)) as [m|] eqn:Hf.
        -- assert (Hin : In m messages).
           { apply find_message_some in Hf.
             destruct Hf as (pre & post & -> & _). apply in_elt. }
           fold api.
           destruct (exitRequest api m w2) as [[u|e] w3];
             exists [m]; simpl; rewrite exitRequest_calls_app; simpl;
             (repeat split; try lia); intros m' [<-|[]]; exact Hin.
        -- exists []. simpl. rewrite exitRequest_calls_app. simpl.
           repeat split; try lia; try (now intros ? []).
      * rewrite (exit_second_fetch_throws deps messages pubKey s H1 He H2).
        exists []. simpl. rewrite exitRequest_calls_app. simpl.
        repeat split; try lia; try (now intros ? []).
  - rewrite (exit_first_fetch_throws deps messages pubKey s H1).
    exists []. simpl. rewrite exitRequest_calls_app. simpl.
    repeat split; try lia; try (now intros ? []).
Qed.

End MoreExitFacts.

(** X11.  The lookup inside [exit] finds a message exactly when the list
    holds one with the wanted [validator_index], and then it is the first
    such message of the list: later messages with the same index are never
    chosen. *)
Theorem find_message_returns_first_match
        (messages : list ExitMessage) (validatorIndex : string)
        (m : ExitMessage) :
  find_message messages validatorIndex = Some m <->
  exists pre post,
    messages = pre ++ m :: post
    /\ validator_index (message m) = validatorIndex
    /\ forall m', In m' pre -> validator_index (message m') <> validatorIndex.
Proof. apply find_message_some. Qed.

(** X12.  When the validator is not exiting, the list holds a message with
    the index of the second validator-info answer and the node accepts the
    request, [exit] submits the first such message, once, logs the success
    and increments the exit-action success counter exactly once. *)
Theorem exit_submits_first_matching_message
        (World : Type) (deps : Deps World)
        (pre : list ExitMessage) (m : ExitMessage) (post : list ExitMessage)
        (pubKey : string) (s : St World) first w1 second w2 u w3 :
  validatorInfo (consensusApi deps) pubKey (world s) = (Ok first, w1) ->
  isExiting first = false ->
  validatorInfo (consensusApi deps) pubKey w1 = (Ok second, w2) ->
  validator_index (message m) = index second ->
  (forall m', In m' pre -> validator_index (message m') <> index second) ->
  exitRequest (consensusApi deps) m w2 = (Ok u, w3) ->
  exit deps (pre ++ m :: post) pubKey s
  = (Ok tt,
     after s w3 (exitActions_inc success (metrics s))
           [consensus_validatorInfo pubKey; consensus_validatorInfo pubKey;
            consensus_exitRequest m;
            logger info
              "Voluntary exit message sent successfully to Consensus Layer"]).
Proof.
  intros H1 He H2 Hidx Hpre Hreq.
  rewrite (exit_resolved deps (pre ++ m :: post) pubKey s H1 He H2).
  assert (Hf : find_message (pre ++ m :: post) (index second) = Some m).
  { apply find_message_some. exists pre, post. auto. }
  rewrite Hf, Hreq. reflexivity.
Qed.

Lemma exit_submits_first_matching_message_witness :
  exit Scenario.node
       ([Scenario.unknown_validator]
          ++ Scenario.signed_previous :: [Scenario.signed_current])
       "0xaa" (Scenario.start [])
  = (Ok tt,
     after (Scenario.start []) ["1"] (exitActions_inc success no_metrics)
           [consensus_validatorInfo "0xaa"; consensus_validatorInfo "0xaa";
            consensus_exitRequest Scenario.signed_previous;
            logger info
              "Voluntary exit message sent successfully to Consensus Layer"]).
Proof.
  apply (@exit_submits_first_matching_message
           Scenario.World Scenario.node
           [Scenario.unknown_validator] Scenario.signed_previous
           [Scenario.signed_current] "0xaa" (Scenario.start [])
           {| index := "1"; pubKey := "0xaa"; isExiting := false |} []
           {| index := "1"; pubKey := "0xaa"; isExiting := false |} []
           tt ["1"]);
    try reflexivity.
  intros m' [<-|[]]. discriminate.
Defined.

(** X13.  When the node refuses the exit request, [exit] does not throw
    and does not try again: it returns after that one request, having
    logged the failure and incremented the exit-action error counter
    exactly once. *)
Theorem exit_contains_a_refused_request
        (World : Type) (deps : Deps World)
        (messages : list ExitMessage) (m : ExitMessage)
        (pubKey : string) (s : St World) first w1 second w2 e w3 :
  validatorInfo (consensusApi deps) pubKey (world s) = (Ok first, w1) ->
  isExiting first = false ->
  validatorInfo (consensusApi deps) pubKey w1 = (Ok second, w2) ->
  find_message messages (index second) = Some m ->
  exitRequest (consensusApi deps) m w2 = (Throw e, w3) ->
  exit deps messages pubKey s
  = (Ok tt,
     after s w3 (exitActions_inc error (metrics s))
           [consensus_validatorInfo pubKey; consensus_validatorInfo pubKey;
            consensus_exitRequest m;
            logger error_level "Failed to send out exit message"]).
Proof.
  intros H1 He H2 Hf Hreq.
  rewrite (exit_resolved deps messages pubKey s H1 He H2), Hf, Hreq.
  reflexivity.
Qed.

Lemma exit_contains_a_refused_request_witness :
  exit Scenario.refusing_node [Scenario.signed_current] "0xaa"
       (Scenario.start [])
  = (Ok tt,
     after (Scenario.start []) [] (exitActions_inc error no_metrics)
           [consensus_validatorInfo "0xaa"; consensus_validatorInfo "0xaa";
            consensus_exitRequest Scenario.signed_current;
            logger error_level "Failed to send out exit message"]).
Proof.
  apply (@exit_contains_a_refused_request
           Scenario.World Scenario.refusing_node
           [Scenario.signed_current] Scenario.signed_current
           "0xaa" (Scenario.start [])
           {| index := "1"; pubKey := "0xaa"; isExiting := false |} []
           {| index := "1"; pubKey := "0xaa"; isExiting := false |} []
           "400" []);
    reflexivity.
Defined.

(** X14.  [exit] throws exactly when a validator-info fetch throws: the
    first one, or the second one after the first reported the validator as
    not exiting; the error is that of the fetch, no counter has moved and
    nothing was submitted. *)
Theorem exit_throws_exactly_when_a_fetch_throws
        (World : Type) (deps : Deps World)
        (messages : list ExitMessage) (pubKey : string) (s : St World)
        (e : string) :
  (fst (exit deps messages pubKey s) = Throw e
   <-> (exists w, validatorInfo (consensusApi deps) pubKey (world s)
                  = (Throw e, w))
       \/ (exists first w1 w2,
              validatorInfo (consensusApi deps) pubKey (world s) = (Ok first, w1)
              /\ isExiting first = false
              /\ validatorInfo (consensusApi deps) pubKey w1 = (Throw e, w2)))
  /\ (fst (exit deps messages pubKey s) = Throw e ->
      metrics (snd (exit deps messages pubKey s)) = metrics s
      /\ exitRequest_calls (trace (snd (exit deps messages pubKey s)))
         = exitRequest_calls (trace s)).
Proof.
  destruct (validatorInfo (consensusApi deps) pubKey (world s))
    as [[first|e1] w1] eqn:H1.
  - destruct (isExiting first) eqn:He.
    + rewrite (exit_already_exiting deps messages pubKey s H1 He). simpl.
      split; [split|]; try discriminate.
      intros [(w & [=])|(f & wa & wb & [= <- <-] & Hx & _)]. congruence.
    + destruct (validatorInfo (consensusApi deps) pubKey w1)
        as [[second|e2] w2] eqn:H2.
      * rewrite (exit_resolved deps messages pubKey s H1 He H2).
        split; [split|].
        -- intros Hthrow. exfalso. revert Hthrow.
           destruct (find_message messages (index second)) as [m|];
             [destruct (exitRequest (consensusApi deps) m w2) as [[u|e3] w3]|];
             discriminate.
        -- intros [(w & [=])|(f & wa & wb & [= <- <-] & _ & Hx)]. congruence.
        -- destruct (find_message messages (index second)) as [m|];
             [destruct (exitRequest (consensusApi deps) m w2) as [[u|e3] w3]|];
             discriminate.
      * rewrite (exit_second_fetch_throws deps messages pubKey s H1 He H2).
        simpl. split; [split|].
        -- intros [= <-]. right. exists first, w1, w2. auto.
        -- intros [(w & [=])|(f & wa & wb & [= <- <-] & _ & Hx)]. congruence.
        -- intros _. split; [reflexivity|].
           rewrite exitRequest_calls_app. simpl. now rewrite app_nil_r.
  - rewrite (exit_first_fetch_throws deps messages pubKey s H1). simpl.
    split; [split|].
    + intros [= <-]. left. now exists w1.
    + intros [(w & [= <- _])|(f & wa & wb & [=] & _)]. reflexivity.
    + intros _. split; [reflexivity|].
      rewrite exitRequest_calls_app. simpl. now rewrite app_nil_r.
Qed.

(** X15.  Whatever the node answers, one call of [exit] submits at most
    one exit request, and only for a message of the list it was given; it
    leaves the exit-messages counters alone and increments the exit-action
    counters at most once in all, the success counter only when a request
    was submitted. *)
Theorem exit_submits_at_most_one_given_message
        (World : Type) (deps : Deps World)
        (messages : list ExitMessage) (pubKey : string) (s : St World) :
  exists submitted,
    exitRequest_calls (trace (snd (exit deps messages pubKey s)))
    = exitRequest_calls (trace s) ++ submitted
    /\ length submitted <= 1
    /\ (forall m, In m submitted -> In m messages)
    /\ exitMessages_valid_true (metrics (snd (exit deps messages pubKey s)))
       = exitMessages_valid_true (metrics s)
    /\ exitMessages_valid_false (metrics (snd (exit deps messages pubKey s)))
       = exitMessages_valid_false (metrics s)
    /\ exitActions_success (metrics (snd (exit deps messages pubKey s)))
       <= exitActions_success (metrics s) + length submitted
    /\ exitActions_success (metrics (snd (exit deps messages pubKey s)))
       + exitActions_error (metrics (snd (exit deps messages pubKey s)))
       <= exitActions_success (metrics s) + exitActions_error (metrics s) + 1.
Proof.
  destruct (exit_facts deps messages pubKey s)
    as (submitted & Hc & Hl & Hin & Ht & Hf & _ & _ & Hs & Hse).
  exists submitted. repeat split; assumption.
Qed.

Section MoreRunJobFacts.
Variable World : Type.
Variable deps : Deps World.

(** One turn of the event loop: the announcement, the call of [exit], and
    the error line when [exit] threw. *)
Lemma runJob_loop_cons messages event rest s :
  runJob_loop deps messages (event :: rest) s
  = match exit deps messages (validatorPubkey event)
                (after s (world s) (metrics s) [logger info "Handling exit"]) with
    | (Ok _, s1) => runJob_loop deps messages rest s1
    | (Throw _, s1) =>
        runJob_loop deps messages rest
          (after s1 (world s1) (metrics s1)
                 [logger error_level
                    ("Unable to process exit for " ++ validatorPubkey event)])
    end.
Proof.
  simpl. unfold bind, emit, try_catch, after.
  destruct (exit deps messages (validatorPubkey event)
              {| world := world s; metrics := metrics s;
                 trace := trace s ++ [logger info "Handling exit"] |})
    as [[u|e] s1]; reflexivity.
Qed.

(** The loop over the events, summed up. *)
Lemma runJob_loop_facts messages events s :
  exists s' submitted,
    runJob_loop deps messages events s = (Ok tt, s')
    /\ exitRequest_calls (trace s') = exitRequest_calls (trace s) ++ submitted
    /\ length submitted <= length events
    /\ (forall m, In m submitted -> In m messages)
    /\ exitMessages_valid_true (metrics s') = exitMessages_valid_true (metrics s)
    /\ exitMessages_valid_false (metrics s') = exitMessages_valid_false (metrics s)
    /\ exitActions_success (metrics s')
       <= exitActions_success (metrics s) + length submitted
    /\ exitActions_success (metrics s') + exitActions_error (metrics s')
       <= exitActions_success (metrics s) + exitActions_error (metrics s)
          + length events.
Proof.
  revert s. induction events as [|event rest IH]; intros s.
  - exists s, []. simpl. rewrite app_nil_r.
    repeat split; try lia; try (now intros ? []).
  - rewrite runJob_loop_cons.
    set (s0 := after s (world s) (metrics s) [logger info "Handling exit"]).
    destruct (exit_facts deps messages (validatorPubkey event) s0)
      as (sub1 & Hc1 & Hl1 & Hin1 & Ht1 & Hf1 & _ & _ & Hs1 & Hse1).
    assert (Hc0 : exitRequest_calls (trace s0) = exitRequest_calls (trace s)).
    { simpl. rewrite exitRequest_calls_app. simpl. now rewrite app_nil_r. }
    rewrite Hc0 in Hc1. simpl in Ht1, Hf1, Hs1, Hse1.
    destruct (exit deps messages (validatorPubkey event) s0) as [[u|e] s1];
      simpl in Hc1, Ht1, Hf1, Hs1, Hse1.
    + destruct (IH s1)
        as (s' & sub2 & Hrun & Hc2 & Hl2 & Hin2 & Ht2 & Hf2 & Hs2 & Hse2).
      exists s', (sub1 ++ sub2). rewrite Hrun, Hc2, Hc1, <- app_assoc.
      rewrite length_app. simpl.
      repeat split; try lia.
      intros m Hin. apply in_app_or in Hin. destruct Hin; auto.
    + match goal with |- context [runJob_loop deps messages rest ?x] =>
        destruct (IH x)
          as (s' & sub2 & Hrun & Hc2 & Hl2 & Hin2 & Ht2 & Hf2 & Hs2 & Hse2)
      end.
      simpl in Hc2, Ht2, Hf2, Hs2, Hse2.
      rewrite exitRequest_calls_app in Hc2. simpl in Hc2.
      rewrite app_nil_r in Hc2.
      exists s', (sub1 ++ sub2). rewrite Hrun, Hc2, Hc1, <- app_assoc.
      rewrite length_app. simpl.
      repeat split; try lia.
      intros m Hin. apply in_app_or in Hin. destruct Hin; auto.
Qed.

(** [runJob] past its four execution-client calls. *)
Lemma runJob_after_logs eventsNumber messages s u1 w1 u2 w2 B w3 events w4 :
  resolveExitBusAddress (executionApi deps) (world s) = (Ok u1, w1) ->
  resolveConsensusAddress (executionApi deps) w1 = (Ok u2, w2) ->
  latestBlockNumber (executionApi deps) w2 = (Ok B, w3) ->
  logs (executionApi deps) (B - eventsNumber)%float B w3 = (Ok events, w4) ->
  runJob deps eventsNumber messages s
  = match runJob_loop deps messages events
            (after s w4 (metrics s)
                   [logger info "Job started";
                    execution_resolveExitBusAddress;
                    execution_resolveConsensusAddress;
                    execution_latestBlockNumber;
                    logger info "Fetched the latest block from EL";
                    logger info "Fetching request events from the Exit Bus";
                    execution_logs (B - eventsNumber)%float B;
                    logger info "Handling ejection requests"]) with
    | (Ok _, s') =>
        (Ok tt, after s' (world s') (metrics s') [logger info "Job finished"])
    | (Throw e, s') => (Throw e, s')
    end.
Proof.
  intros H1 H2 H3 H4. unfold runJob.
  unfold bind at 1. unfold emit at 1.
  unfold bind at 1. unfold await at 1. cbn [world]. rewrite H1.
  unfold bind at 1. unfold await at 1. cbn [world]. rewrite H2.
  unfold bind at 1. unfold await at 1. cbn [world]. rewrite H3.
  unfold bind at 1. unfold emit at 1.
  unfold bind at 1. unfold emit at 1.
  unfold bind at 1. unfold await at 1. cbn [world metrics trace]. rewrite H4.
  unfold bind at 1. unfold emit at 1. cbn [world metrics trace].
  unfold bind at 1. unfold after. rewrite <- !app_assoc. simpl.
  match goal with |- context [runJob_loop deps messages events ?x] =>
    destruct (runJob_loop deps messages events x) as [[u|e] s'] end;
    reflexivity.
Qed.

End MoreRunJobFacts.

Lemma Subsequence_In {A} (out l : list A) :
  Subsequence out l -> forall x, In x out -> In x l.
Proof.
  induction 1 as [|x out l _ IH|x out l _ IH]; intros y Hin.
  - exact Hin.
  - right. now apply IH.
  - destruct Hin as [<-|Hin]; [now left | right; now apply IH].
Qed.

Lemma verify_returns_subsequence
      (World : Type) (deps : Deps World)
      (messages : list ExitMessage) (s : St World) out :
  fst (verify deps messages s) = Ok out -> Subsequence out messages.
Proof.
  destruct (genesis (consensusApi deps) (world s)) as [[g|e] w1] eqn:Hg.
  - destruct (state (consensusApi deps) w1) as [[st|e] w2] eqn:Hst.
    + rewrite (verify_after_fetches deps messages s Hg Hst).
      destruct (verify_loop_outcome deps g st messages []
                  (after s w2 (metrics s) [consensus_genesis; consensus_state]))
        as (out' & s' & -> & Hsub & _).
      simpl. now intros [= <-].
    + unfold verify, bind, await. rewrite Hg. simpl. rewrite Hst. discriminate.
  - unfold verify, bind, await. rewrite Hg. discriminate.
Qed.

(** Every way [runJob] can end. *)
Lemma runJob_outcome
      (World : Type) (deps : Deps World)
      (eventsNumber : float) (messages : list ExitMessage) (s : St World) :
  match resolveExitBusAddress (executionApi deps) (world s) with
  | (Throw e, w1) =>
      runJob deps eventsNumber messages s
      = (Throw e,
         after s w1 (metrics s)
               [logger info "Job started"; execution_resolveExitBusAddress])
  | (Ok _, w1) =>
      match resolveConsensusAddress (executionApi deps) w1 with
      | (Throw e, w2) =>
          runJob deps eventsNumber messages s
          = (Throw e,
             after s w2 (metrics s)
                   [logger info "Job started"; execution_resolveExitBusAddress;
                    execution_resolveConsensusAddress])
      | (Ok _, w2) =>
          match latestBlockNumber (executionApi deps) w2 with
          | (Throw e, w3) =>
              runJob deps eventsNumber messages s
              = (Throw e,
                 after s w3 (metrics s)
                       [logger info "Job started";
                        execution_resolveExitBusAddress;
                        execution_resolveConsensusAddress;
                        execution_latestBlockNumber])
          | (Ok B, w3) =>
              match logs (executionApi deps) (B - eventsNumber)%float B w3 with
              | (Throw e, w4) =>
                  runJob deps eventsNumber messages s
                  = (Throw e,
                     after s w4 (metrics s)
                           [logger info "Job started";
                            execution_resolveExitBusAddress;
                            execution_resolveConsensusAddress;
                            execution_latestBlockNumber;
                            logger info "Fetched the latest block from EL";
                            logger info "Fetching request events from the Exit Bus";
                            execution_logs (B - eventsNumber)%float B])
              | (Ok _, _) => fst (runJob deps eventsNumber messages s) = Ok tt
              end
          end
      end
  end.
Proof.
  destruct (resolveExitBusAddress (executionApi deps) (world s))
    as [[u1|e] w1] eqn:H1.
  - destruct (resolveConsensusAddress (executionApi deps) w1)
      as [[u2|e] w2] eqn:H2.
    + destruct (latestBlockNumber (executionApi deps) w2) as [[B|e] w3] eqn:H3.
      * destruct (logs (executionApi deps) (B - eventsNumber)%float B w3)
          as [[events|e] w4] eqn:H4.
        -- rewrite (runJob_after_logs deps eventsNumber messages s H1 H2 H3 H4).
           match goal with |- context [runJob_loop deps messages events ?x] =>
             destruct (runJob_loop_facts deps messages events x)
               as (s' & sub & -> & _) end.
           reflexivity.
        -- unfold runJob, bind, emit, await. cbn [world]. rewrite H1.
           cbn [world]. rewrite H2. cbn [world]. rewrite H3.
           cbn [world metrics trace]. rewrite H4.
           unfold after. cbn [world metrics trace]. rewrite <- !app_assoc.
           reflexivity.
      * unfold runJob, bind, emit, await. cbn [world]. rewrite H1.
        cbn [world]. rewrite H2. cbn [world]. rewrite H3.
        unfold after. cbn [world metrics trace]. rewrite <- !app_assoc.
        reflexivity.
    + unfold runJob, bind, emit, await. cbn [world]. rewrite H1.
      cbn [world]. rewrite H2.
      unfold after. cbn [world metrics trace]. rewrite <- !app_assoc.
      reflexivity.
  - unfold runJob, bind, emit, await. cbn [world]. rewrite H1.
    unfold after. cbn [world metrics trace]. rewrite <- !app_assoc.
    reflexivity.
Qed.

(** Whatever happens, [runJob] submits only messages of its list and
    leaves the exit-messages counters alone. *)
Lemma runJob_submits_given_messages
      (World : Type) (deps : Deps World)
      (eventsNumber : float) (messages : list ExitMessage) (s : St World) :
  exists submitted,
    exitRequest_calls (trace (snd (runJob deps eventsNumber messages s)))
    = exitRequest_calls (trace s) ++ submitted
    /\ (forall m, In m submitted -> In m messages).
Proof.
  pose proof (runJob_outcome deps eventsNumber messages s) as Hout.
  destruct (resolveExitBusAddress (executionApi deps) (world s))
    as [[u1|e] w1] eqn:H1.
  - destruct (resolveConsensusAddress (executionApi deps) w1)
      as [[u2|e] w2] eqn:H2.
    + destruct (latestBlockNumber (executionApi deps) w2) as [[B|e] w3] eqn:H3.
      * destruct (logs (executionApi deps) (B - eventsNumber)%float B w3)
          as [[events|e] w4] eqn:H4.
        -- rewrite (runJob_after_logs deps eventsNumber messages s H1 H2 H3 H4).
           match goal with |- context [runJob_loop deps messages events ?x] =>
             destruct (runJob_loop_facts deps messages events x)
               as (s' & sub & -> & Hc & _ & Hin & _) end.
           exists sub. split; [|exact Hin]. simpl.
           rewrite exitRequest_calls_app, Hc. simpl.
           rewrite !exitRequest_calls_app. simpl. now rewrite !app_nil_r.
        -- rewrite Hout. exists []. simpl. rewrite exitRequest_calls_app.
           simpl. split; [reflexivity | now intros ? []].
      * rewrite Hout. exists []. simpl. rewrite exitRequest_calls_app.
        simpl. split; [reflexivity | now intros ? []].
    + rewrite Hout. exists []. simpl. rewrite exitRequest_calls_app.
      simpl. split; [reflexivity | now intros ? []].
  - rewrite Hout. exists []. simpl. rewrite exitRequest_calls_app.
    simpl. split; [reflexivity | now intros ? []].
Qed.

(** X16.  [runJob] throws only when one of its four execution-client
    calls throws (the two address resolutions, the latest block number,
    the event query), with that call's error, having processed no event
    and moved no counter; what the calls made before were is listed.  Once
    the events are fetched [runJob] returns normally, whatever happens
    while the events are handled. *)
Theorem runJob_throws_only_on_execution_calls
        (World : Type) (deps : Deps World)
        (eventsNumber : float) (messages : list ExitMessage) (s : St World) :
  match resolveExitBusAddress (executionApi deps) (world s) with
  | (Throw e, w1) =>
      runJob deps eventsNumber messages s
      = (Throw e,
         after s w1 (metrics s)
               [logger info "Job started"; execution_resolveExitBusAddress])
  | (Ok _, w1) =>
      match resolveConsensusAddress (executionApi deps) w1 with
      | (Throw e, w2) =>
          runJob deps eventsNumber messages s
          = (Throw e,
             after s w2 (metrics s)
                   [logger info "Job started"; execution_resolveExitBusAddress;
                    execution_resolveConsensusAddress])
      | (Ok _, w2) =>
          match latestBlockNumber (executionApi deps) w2 with
          | (Throw e, w3) =>
              runJob deps eventsNumber messages s
              = (Throw e,
                 after s w3 (metrics s)
                       [logger info "Job started";
                        execution_resolveExitBusAddress;
                        execution_resolveConsensusAddress;
                        execution_latestBlockNumber])
          | (Ok B, w3) =>
              match logs (executionApi deps) (B - eventsNumber)%float B w3 with
              | (Throw e, w4) =>
                  runJob deps eventsNumber messages s
                  = (Throw e,
                     after s w4 (metrics s)
                           [logger info "Job started";
                            execution_resolveExitBusAddress;
                            execution_resolveConsensusAddress;
                            execution_latestBlockNumber;
                            logger info "Fetched the latest block from EL";
                            logger info "Fetching request events from the Exit Bus";
                            execution_logs (B - eventsNumber)%float B])
              | (Ok _, _) => fst (runJob deps eventsNumber messages s) = Ok tt
              end
          end
      end
  end.
Proof. apply runJob_outcome. Qed.



(** X18.  Once the events are fetched, [runJob] submits at most one exit
    request per event, each for a message of the list it was given; it
    leaves the exit-messages counters alone, increments the exit-action
    counters at most once per event in all, and the success counter no
    more often than it submitted a request. *)
Theorem runJob_submits_at_most_one_given_message_per_event
        (World : Type) (deps : Deps World)
        (eventsNumber : float) (messages : list ExitMessage) (s : St World)
        u1 w1 u2 w2 B w3 events w4 :
  resolveExitBusAddress (executionApi deps) (world s) = (Ok u1, w1) ->
  resolveConsensusAddress (executionApi deps) w1 = (Ok u2, w2) ->
  latestBlockNumber (executionApi deps) w2 = (Ok B, w3) ->
  logs (executionApi deps) (B - eventsNumber)%float B w3 = (Ok events, w4) ->
  exists submitted,
    exitRequest_calls (trace (snd (runJob deps eventsNumber messages s)))
    = exitRequest_calls (trace s) ++ submitted
    /\ length submitted <= length events
    /\ (forall m, In m submitted -> In m messages)
    /\ exitMessages_valid_true (metrics (snd (runJob deps eventsNumber messages s)))
       = exitMessages_valid_true (metrics s)
    /\ exitMessages_valid_false (metrics (snd (runJob deps eventsNumber messages s)))
       = exitMessages_valid_false (metrics s)
    /\ exitActions_success (metrics (snd (runJob deps eventsNumber messages s)))
       <= exitActions_success (metrics s) + length submitted
    /\ exitActions_success (metrics (snd (runJob deps eventsNumber messages s)))
       + exitActions_error (metrics (snd (runJob deps eventsNumber messages s)))
       <= exitActions_success (metrics s) + exitActions_error (metrics s)
          + length events.
Proof.
  intros H1 H2 H3 H4.
  rewrite (runJob_after_logs deps eventsNumber messages s H1 H2 H3 H4).
  match goal with |- context [runJob_loop deps messages events ?x] =>
    destruct (runJob_loop_facts deps messages events x)
      as (s' & sub & -> & Hc & Hl & Hin & Ht & Hf & Hs & Hse) end.
  exists sub. simpl in *.
  rewrite exitRequest_calls_app, Hc. simpl.
  rewrite !exitRequest_calls_app. simpl. rewrite !app_nil_r.
  repeat split; assumption.
Qed.

Lemma runJob_submits_at_most_one_given_message_per_event_witness :
  exists submitted,
    exitRequest_calls
      (trace (snd (runJob (Scenario.deps [] None [] [] Scenario.three_events)
                          100 [Scenario.signed_current] (Scenario.start []))))
    = exitRequest_calls (trace (Scenario.start [])) ++ submitted
    /\ length submitted <= length Scenario.three_events
    /\ (forall m, In m submitted -> In m [Scenario.signed_current])
    /\ exitMessages_valid_true
         (metrics (snd (runJob (Scenario.deps [] None [] [] Scenario.three_events)
                               100 [Scenario.signed_current] (Scenario.start []))))
       = exitMessages_valid_true (metrics (Scenario.start []))
    /\ exitMessages_valid_false
         (metrics (snd (runJob (Scenario.deps [] None [] [] Scenario.three_events)
                               100 [Scenario.signed_current] (Scenario.start []))))
       = exitMessages_valid_false (metrics (Scenario.start []))
    /\ exitActions_success
         (metrics (snd (runJob (Scenario.deps [] None [] [] Scenario.three_events)
                               100 [Scenario.signed_current] (Scenario.start []))))
       <= exitActions_success (metrics (Scenario.start [])) + length submitted
    /\ exitActions_success
         (metrics (snd (runJob (Scenario.deps [] None [] [] Scenario.three_events)
                               100 [Scenario.signed_current] (Scenario.start []))))
       + exitActions_error
           (metrics (snd (runJob (Scenario.deps [] None [] [] Scenario.three_events)
                                 100 [Scenario.signed_current] (Scenario.start []))))
       <= exitActions_success (metrics (Scenario.start []))
          + exitActions_error (metrics (Scenario.start []))
          + length Scenario.three_events.
Proof.
  apply (@runJob_submits_at_most_one_given_message_per_event
           Scenario.World (Scenario.deps [] None [] [] Scenario.three_events)
           100 [Scenario.signed_current] (Scenario.start [])
           tt [] tt [] 1000%float [] Scenario.three_events []);
    reflexivity.
Defined.

(** X19.  Along the pipeline [load], [verify], [runJob], every exit
    request that [runJob] adds is for a message that [verify] returned,
    hence one that [load] returned, hence one that passed the schema
    check. *)
Theorem pipeline_submits_only_loaded_and_verified_messages
        (World : Type) (deps : Deps World)
        (s0 s1 s2 : St World) (loaded verified : list ExitMessage)
        (eventsNumber : float) :
  fst (load deps s0) = Ok loaded ->
  fst (verify deps loaded s1) = Ok verified ->
  exists submitted,
    exitRequest_calls (trace (snd (runJob deps eventsNumber verified s2)))
    = exitRequest_calls (trace s2) ++ submitted
    /\ forall m, In m submitted ->
         In m verified
         /\ In m loaded
         /\ exists j validated,
             exitOrEthDoExitDTO (imports deps) j = Ok validated
             /\ m = unwrap validated.
Proof.
  intros Hload Hverify.
  destruct (runJob_submits_given_messages deps eventsNumber verified s2)
    as (submitted & Hc & Hin).
  exists submitted. split; [exact Hc|]. intros m Hm.
  pose proof (Hin m Hm) as Hv.
  pose proof (Subsequence_In (verify_returns_subsequence deps loaded s1 Hverify)
                m Hv) as Hl.
  repeat split; try assumption.
  unfold load in Hload.
  destruct (load_loop_facts deps (MESSAGES_LOCATIONS (config deps)) [] s0)
    as (n & added & _ & _ & _ & _ & _ & _ & Hval & _ & Hr).
  rewrite Hload in Hr. destruct Hr as (_ & ->). now apply Hval.
Qed.

Lemma pipeline_submits_only_loaded_and_verified_messages_witness :
  exists submitted,
    exitRequest_calls
      (trace (snd (runJob Scenario.pipeline 100 [Scenario.signed_current]
                          (Scenario.start []))))
    = exitRequest_calls (trace (Scenario.start [])) ++ submitted
    /\ forall m, In m submitted ->
         In m [Scenario.signed_current]
         /\ In m [Scenario.signed_current]
         /\ exists j validated,
             exitOrEthDoExitDTO (imports Scenario.pipeline) j = Ok validated
             /\ m = unwrap validated.
Proof.
  apply (@pipeline_submits_only_loaded_and_verified_messages
           Scenario.World Scenario.pipeline
           (Scenario.start []) (Scenario.start []) (Scenario.start [])
           [Scenario.signed_current] [Scenario.signed_current] 100);
    reflexivity.
Defined.

(* ================================================================== *)
(** ** The DTOs of the consensus API *)

Section DtoFacts.
Import Nanolib ConsensusDto.

Lemma str_ok value errorMessage text :
  str value errorMessage = Ok text <-> value = Some (JStr text).
Proof.
  unfold str. split.
  - destruct value as [[]|]; try discriminate. now intros [= ->].
  - now intros ->.
Qed.

Lemma str_throws value errorMessage :
  is_string value = false ->
  str value (Some errorMessage) = Throw errorMessage.
Proof. destruct value as [[]|]; simpl; try reflexivity; discriminate. Qed.

Lemma obj_ok {A} value (cb : list (string * json) -> result A) errorMessage a :
  obj value cb errorMessage = Ok a
  <-> exists fields, value = Some (JObj fields) /\ cb fields = Ok a.
Proof.
  unfold obj. split.
  - destruct value as [[]|]; try discriminate. intros H. eauto.
  - now intros (fields & -> & H).
Qed.

Lemma and_then_ok {A B} (r : result A) (k : A -> result B) b :
  and_then r k = Ok b <-> exists a, r = Ok a /\ k a = Ok b.
Proof.
  unfold and_then. split.
  - destruct r as [a|e]; [eauto | discriminate].
  - now intros (a & -> & H).
Qed.

End DtoFacts.

(** X20.  [genesisDTO] accepts exactly an object whose [data] is an object
    with string fields [genesis_time], [genesis_validators_root] and
    [genesis_fork_version], and returns those three strings as they are;
    other fields are ignored. *)
Theorem genesisDTO_accepts_exactly
        (json : option json) (r : ConsensusDto.Response ConsensusDto.Genesis) :
  ConsensusDto.genesisDTO json = Ok r
  <-> exists fields inner,
      json = Some (JObj fields)
      /\ Nanolib.property "data" fields = Some (JObj inner)
      /\ Nanolib.property "genesis_time" inner
         = Some (JStr (ConsensusDto.genesis_time (ConsensusDto.data r)))
      /\ Nanolib.property "genesis_validators_root" inner
         = Some (JStr (ConsensusDto.genesis_validators_root (ConsensusDto.data r)))
      /\ Nanolib.property "genesis_fork_version" inner
         = Some (JStr (ConsensusDto.genesis_fork_version (ConsensusDto.data r))).
Proof.
  unfold ConsensusDto.genesisDTO. split.
  - intros H.
    apply obj_ok in H. destruct H as (fields & -> & H).
    apply and_then_ok in H. destruct H as (d & H & [= <-]).
    apply obj_ok in H. destruct H as (inner & Hd & H).
    apply and_then_ok in H. destruct H as (a & Ha & H).
    apply and_then_ok in H. destruct H as (b & Hb & H).
    apply and_then_ok in H. destruct H as (c & Hc & [= <-]).
    apply str_ok in Ha, Hb, Hc. exists fields, inner. simpl. auto.
  - intros (fields & inner & -> & Hd & Ha & Hb & Hc).
    destruct r as [[a b c]]. simpl in *.
    rewrite Hd. simpl. rewrite Ha, Hb, Hc. reflexivity.
Qed.

(** X21.  On a response whose [data] is an object, [stateDTO] names the
    first field, in the order [previous_version], [current_version],
    [epoch], that is missing or is not a string. *)
Theorem stateDTO_names_first_bad_field
        (fields inner : list (string * json)) :
  Nanolib.property "data" fields = Some (JObj inner) ->
  (Nanolib.is_string (Nanolib.property "previous_version" inner) = false ->
   ConsensusDto.stateDTO (Some (JObj fields))
   = Throw "Invalid previous_version input")
  /\ (Nanolib.is_string (Nanolib.property "previous_version" inner) = true ->
      Nanolib.is_string (Nanolib.property "current_version" inner) = false ->
      ConsensusDto.stateDTO (Some (JObj fields))
      = Throw "Invalid current_version input")
  /\ (Nanolib.is_string (Nanolib.property "previous_version" inner) = true ->
      Nanolib.is_string (Nanolib.property "current_version" inner) = true ->
      Nanolib.is_string (Nanolib.property "epoch" inner) = false ->
      ConsensusDto.stateDTO (Some (JObj fields)) = Throw "Invalid epoch input").
Proof.
  intros Hd. unfold ConsensusDto.stateDTO. simpl. rewrite Hd. simpl.
  repeat split.
  - intros Hp. now rewrite (str_throws _ _ Hp).
  - intros Hp Hc.
    destruct (Nanolib.property "previous_version" inner) as [[]|];
      try discriminate.
    simpl. now rewrite (str_throws _ _ Hc).
  - intros Hp Hc He.
    destruct (Nanolib.property "previous_version" inner) as [[]|];
      try discriminate.
    destruct (Nanolib.property "current_version" inner) as [[]|];
      try discriminate.
    simpl. now rewrite (str_throws _ _ He).
Qed.

Lemma stateDTO_names_first_bad_field_witness :
  ConsensusDto.stateDTO
    (Some (JObj [("data", JObj [("previous_version", JStr "0x03");
                                ("current_version", JNum "2")])]))
  = Throw "Invalid current_version input".
Proof.
  refine (proj1 (proj2 (@stateDTO_names_first_bad_field
                          [("data", JObj [("previous_version", JStr "0x03");
                                          ("current_version", JNum "2")])]
                          [("previous_version", JStr "0x03");
                           ("current_version", JNum "2")] _)) _ _);
    reflexivity.
Defined.

(** X22.  [validatorInfoDTO] accepts exactly an object whose [data] is an
    object with string fields [index] and [status] and an object
    [validator] with a string field [pubkey], and returns those three
    strings as they are. *)
Theorem validatorInfoDTO_accepts_exactly
        (json : option json)
        (r : ConsensusDto.Response ConsensusDto.ValidatorData) :
  ConsensusDto.validatorInfoDTO json = Ok r
  <-> exists fields inner nested,
      json = Some (JObj fields)
      /\ Nanolib.property "data" fields = Some (JObj inner)
      /\ Nanolib.property "index" inner
         = Some (JStr (ConsensusDto.index (ConsensusDto.data r)))
      /\ Nanolib.property "status" inner
         = Some (JStr (ConsensusDto.status (ConsensusDto.data r)))
      /\ Nanolib.property "validator" inner = Some (JObj nested)
      /\ Nanolib.property "pubkey" nested
         = Some (JStr (ConsensusDto.pubkey
                         (ConsensusDto.validator (ConsensusDto.data r)))).
Proof.
  unfold ConsensusDto.validatorInfoDTO. split.
  - intros H.
    apply obj_ok in H. destruct H as (fields & -> & H).
    apply and_then_ok in H. destruct H as (d & H & [= <-]).
    apply obj_ok in H. destruct H as (inner & Hd & H).
    apply and_then_ok in H. destruct H as (a & Ha & H).
    apply and_then_ok in H. destruct H as (b & Hb & H).
    apply and_then_ok in H. destruct H as (c & Hc & [= <-]).
    apply obj_ok in Hc. destruct Hc as (nested & Hv & Hc).
    apply and_then_ok in Hc. destruct Hc as (p & Hp & [= <-]).
    apply str_ok in Ha, Hb, Hp. exists fields, inner, nested. simpl. auto 7.
  - intros (fields & inner & nested & -> & Hd & Ha & Hb & Hv & Hp).
    destruct r as [[a b [p]]]. simpl in *.
    rewrite Hd. simpl. rewrite Ha, Hb. simpl. rewrite Hv. simpl. rewrite Hp.
    reflexivity.
Qed.

(** X23.  Whatever [bool] of lido-nanolib does, [syncingDTO] accepts
    exactly an object whose [data] is an object with string fields
    [head_slot] and [sync_distance] and with fields [is_syncing] and
    [is_optimistic] that [bool] accepts: the two strings are returned as
    they are and the two flags as [bool] returns them. *)
Theorem syncingDTO_accepts_what_bool_accepts
        (bool_ : option json -> option string -> result bool)
        (json : option json) (r : ConsensusDto.Response ConsensusDto.Syncing) :
  ConsensusDto.syncingDTO bool_ json = Ok r
  <-> exists fields inner,
      json = Some (JObj fields)
      /\ Nanolib.property "data" fields = Some (JObj inner)
      /\ Nanolib.property "head_slot" inner
         = Some (JStr (ConsensusDto.head_slot (ConsensusDto.data r)))
      /\ Nanolib.property "sync_distance" inner
         = Some (JStr (ConsensusDto.sync_distance (ConsensusDto.data r)))
      /\ bool_ (Nanolib.property "is_syncing" inner) None
         = Ok (ConsensusDto.is_syncing (ConsensusDto.data r))
      /\ bool_ (Nanolib.property "is_optimistic" inner) None
         = Ok (ConsensusDto.is_optimistic (ConsensusDto.data r)).
Proof.
  unfold ConsensusDto.syncingDTO. split.
  - intros H.
    apply obj_ok in H. destruct H as (fields & -> & H).
    apply and_then_ok in H. destruct H as (d & H & [= <-]).
    apply obj_ok in H. destruct H as (inner & Hd & H).
    apply and_then_ok in H. destruct H as (a & Ha & H).
    apply and_then_ok in H. destruct H as (b & Hb & H).
    apply and_then_ok in H. destruct H as (c & Hc & H).
    apply and_then_ok in H. destruct H as (f & Hf & [= <-]).
    apply str_ok in Ha, Hb.
    exists fields, inner. simpl. auto 7.
  - intros (fields & inner & -> & Hd & Ha & Hb & Hc & Hf).
    destruct r as [[a b c f]]. simpl in *.
    rewrite Hd. simpl. rewrite Ha, Hb. simpl. rewrite Hc. simpl. rewrite Hf.
    reflexivity.
Qed.

(** X24.  A location that is read, parses to an object without a [crypto]
    key and passes the schema check adds its message, unwrapped when it
    came in the wrapped form, at the end of the list: no counter moves
    and nothing is logged. *)
Theorem load_keeps_a_validated_location
        (World : Type) (deps : Deps World)
        (file : string) (messages : list ExitMessage) (s : St World)
        text s1 j validated :
  readFile deps file s = (Ok text, s1) ->
  JSON_parse (imports deps) text = Ok j ->
  js_in "crypto" j = Ok false ->
  exitOrEthDoExitDTO (imports deps) j = Ok validated ->
  load_file deps file messages s
  = (Ok (messages ++ [unwrap validated]), s1)
  /\ metrics s1 = metrics s
  /\ trace s1 = trace s ++ [read_of file].
Proof.
  intros Hr Hp Hin Hv.
  rewrite (load_file_after_read deps file messages s Hr), Hp, Hin.
  rewrite load_validate_run, Hv.
  pose proof (readFile_metrics deps file s) as Hm.
  pose proof (readFile_trace deps file s) as Ht.
  rewrite Hr in Hm, Ht. auto.
Qed.

Lemma load_keeps_a_validated_location_witness :
  load_file Scenario.three_locations "gs://bucket/good.json" []
            (Scenario.start [])
  = (Ok ([] ++ [unwrap (inl Scenario.signed_current)]),
     {| world := []; metrics := no_metrics;
        trace := [gs_read "gs://bucket/good.json"] |})
  /\ metrics {| world := ([] : Scenario.World); metrics := no_metrics;
                trace := [gs_read "gs://bucket/good.json"] |}
     = metrics (Scenario.start [])
  /\ trace {| world := ([] : Scenario.World); metrics := no_metrics;
              trace := [gs_read "gs://bucket/good.json"] |}
     = trace (Scenario.start []) ++ [read_of "gs://bucket/good.json"].
Proof.
  apply (@load_keeps_a_validated_location
           Scenario.World Scenario.three_locations "gs://bucket/good.json" []
           (Scenario.start []) "good"
           {| world := []; metrics := no_metrics;
              trace := [gs_read "gs://bucket/good.json"] |}
           Scenario.good_document (inl Scenario.signed_current));
    reflexivity.
Defined.

(** X25.  For a location whose object has a [crypto] key, what is checked
    and kept is the decrypted content, not the object read: when
    [decryptMessage] returns a value that passes the schema check, the
    message added is the one of that value. *)
Theorem load_keeps_the_decrypted_message
        (World : Type) (deps : Deps World)
        (file : string) (messages : list ExitMessage) (s : St World)
        text s1 j j' validated :
  readFile deps file s = (Ok text, s1) ->
  JSON_parse (imports deps) text = Ok j ->
  js_in "crypto" j = Ok true ->
  fst (decryptMessage deps j s1) = Ok j' ->
  exitOrEthDoExitDTO (imports deps) j' = Ok validated ->
  load_file deps file messages s
  = (Ok (messages ++ [unwrap validated]), s1).
Proof.
  intros Hr Hp Hin Hd Hv.
  rewrite (load_file_after_read deps file messages s Hr), Hp, Hin, Hd.
  now rewrite load_validate_run, Hv.
Qed.

Lemma load_keeps_the_decrypted_message_witness :
  load_file Scenario.sealed_with_password "s3://bucket/sealed.json" []
            (Scenario.start [])
  = (Ok ([] ++ [unwrap (inl Scenario.signed_current)]),
     {| world := []; metrics := no_metrics;
        trace := [s3_read "s3://bucket/sealed.json"] |}).
Proof.
  apply (@load_keeps_the_decrypted_message
           Scenario.World Scenario.sealed_with_password
           "s3://bucket/sealed.json" [] (Scenario.start []) "sealed"
           {| world := []; metrics := no_metrics;
              trace := [s3_read "s3://bucket/sealed.json"] |}
           Scenario.sealed_document Scenario.good_document
           (inl Scenario.signed_current));
    reflexivity.
Defined.
